(** * disgo: configuration merging and message segmentation

    A shallow embedding of [disgo.go] (the command line tool that forwards
    standard input to a Discord channel) and the proofs of the properties its
    specification states about it.

    Go values are modelled as follows.
    - A Go [string] is a sequence of bytes: Rocq's [string] (a list of 8-bit
      [ascii]).  [len(s)] is the number of bytes.
    - A Go [int] is a [Z].  The only arithmetic the modelled code performs is
      [lastNewline + 1] with [lastNewline < len(remaining)], which cannot leave
      the 64-bit range, so it is plain addition on [Z].
    - A slice expression out of range, and a loop that exhausts its fuel, are
      explicit outcomes ([Panic], [OutOfFuel]) and are proved not to happen.
    - [map[string]string] is stdpp's [gmap string string]; a nil map is
      [None]. [[]string] is [list string] (a nil slice is the empty list). *)

From Stdlib Require Import ZArith Lia Ascii String List.
From stdpp Require Import base option list strings gmap fin_maps.

Local Open Scope string_scope.
Local Open Scope list_scope.
Local Open Scope Z_scope.

(** ** Outcomes of a Go computation *)

Inductive outcome (A : Type) : Type :=
| Done (a : A)
| Panic
| OutOfFuel.
Arguments Done {A} a.
Arguments Panic {A}.
Arguments OutOfFuel {A}.

#[global] Instance outcome_ret : MRet outcome := fun _ a => Done a.
#[global] Instance outcome_bind : MBind outcome := fun _ _ f m =>
  match m with
  | Done a => f a
  | Panic => Panic
  | OutOfFuel => OutOfFuel
  end.

(** ** The parts of Go's [strings] package and of string slicing that the
       program uses *)

Module strings.

(** [len(s)] *)
Definition len (s : string) : Z := Z.of_nat (String.length s).

(** The first [n] bytes of [s] (all of [s] when it is shorter). *)
Fixpoint take_bytes (n : nat) (s : string) : string :=
  match n, s with
  | S n', String c s' => String c (take_bytes n' s')
  | _, _ => EmptyString
  end.

(** [s] without its first [n] bytes (empty when it is shorter). *)
Fixpoint drop_bytes (n : nat) (s : string) : string :=
  match n, s with
  | S n', String _ s' => drop_bytes n' s'
  | _, _ => s
  end.

(** [s[:hi]]: panics unless [0 <= hi <= len(s)]. *)
Definition slice_to (s : string) (hi : Z) : outcome string :=
  if (0 <=? hi) && (hi <=? len s) then Done (take_bytes (Z.to_nat hi) s)
  else Panic.

(** [s[lo:]]: panics unless [0 <= lo <= len(s)]. *)
Definition slice_from (s : string) (lo : Z) : outcome string :=
  if (0 <=? lo) && (lo <=? len s) then Done (drop_bytes (Z.to_nat lo) s)
  else Panic.

(** Position of the last byte of [s] equal to [c], counted from 0. *)
Fixpoint last_index (s : string) (c : ascii) : option nat :=
  match s with
  | EmptyString => None
  | String a s' =>
      match last_index s' c with
      | Some i => Some (S i)
      | None => if Ascii.eqb a c then Some O else None
      end
  end.

(** [strings.LastIndex(s, substr)] for a one-byte [substr]: the index of
    its last occurrence, or -1. *)
Definition LastIndex (s : string) (c : ascii) : Z :=
  match last_index s c with
  | Some i => Z.of_nat i
  | None => -1
  end.

(** [strings.Split(s, sep)] for a one-byte [sep]: the substrings between
    the separators, [Count(s, sep) + 1] of them. *)
Fixpoint Split (s : string) (sep : ascii) : list string :=
  match s with
  | EmptyString => [EmptyString]
  | String c s' =>
      if Ascii.eqb c sep then EmptyString :: Split s' sep
      else match Split s' sep with
           | x :: xs => String c x :: xs
           | [] => [String c EmptyString]
           end
  end.

(** [strings.HasPrefix(s, prefix)] *)
Definition HasPrefix (s p : string) : bool := String.prefix p s.

(** The table [asciiSpace] of package [strings]: tab, line feed, vertical
    tab, form feed, carriage return, space. *)
Definition asciiSpace (c : ascii) : bool :=
  let n := nat_of_ascii c in
  ((9 <=? n)%nat && (n <=? 13)%nat) || (n =? 32)%nat.

(** The two-byte UTF-8 encodings of the runes [unicode.IsSpace] accepts:
    U+0085 and U+00A0. *)
Definition space2 (c1 c2 : ascii) : bool :=
  let a := nat_of_ascii c1 in
  let b := nat_of_ascii c2 in
  (a =? 194)%nat && ((b =? 133)%nat || (b =? 160)%nat).

(** The three-byte ones: U+1680, U+2000..U+200A, U+2028, U+2029, U+202F,
    U+205F, U+3000. *)
Definition space3 (c1 c2 c3 : ascii) : bool :=
  let a := nat_of_ascii c1 in
  let b := nat_of_ascii c2 in
  let c := nat_of_ascii c3 in
  ((a =? 225)%nat && (b =? 154)%nat && (c =? 128)%nat)
  || ((a =? 226)%nat && (b =? 128)%nat
      && (((128 <=? c)%nat && (c <=? 138)%nat)
          || (c =? 168)%nat || (c =? 169)%nat || (c =? 175)%nat))
  || ((a =? 226)%nat && (b =? 129)%nat && (c =? 159)%nat)
  || ((a =? 227)%nat && (b =? 128)%nat && (c =? 128)%nat).

(** Removes the white space runes at the front of [s].  With [back] the
    bytes of [s] are in reverse order, so that a rune's bytes are met last
    byte first: this is the scan from the end of the string. *)
Fixpoint trim_front (back : bool) (s : string) : string :=
  match s with
  | EmptyString => EmptyString
  | String c1 s1 =>
      if asciiSpace c1 then trim_front back s1
      else
        match s1 with
        | EmptyString => s
        | String c2 s2 =>
            if (if back then space2 c2 c1 else space2 c1 c2)
            then trim_front back s2
            else
              match s2 with
              | EmptyString => s
              | String c3 s3 =>
                  if (if back then space3 c3 c2 c1 else space3 c1 c2 c3)
                  then trim_front back s3
                  else s
              end
        end
  end.

(** [strings.TrimSpace(s)]: [s] without the leading and trailing white
    space, as [unicode.IsSpace] defines it on the UTF-8 decoding of [s]. *)
Definition TrimSpace (s : string) : string :=
  String.rev (trim_front true (String.rev (trim_front false s))).

End strings.

(** ** Constants and types of the program *)

Definition ModeReplace : string := "replace".
Definition ModeMerge : string := "merge".

Definition DefaultMaxMessageSize : Z := 2000.
Definition ModeSerialize : string := "serialize".
Definition ModeTruncate : string := "truncate".

(** [Config]: the persisted settings. *)
Record Config : Type := mkConfig {
  Token : string;
  ChannelID : string;
  ServerID : string;
  Username : string;
  Tags : list string;
  TagMode : string;
  Properties : option (gmap string string);
  PropertyMode : string;
  Debug : bool;
  MaxMessageSize : Z;
  MessageMode : string;
  ThreadName : string;
  Passthrough : bool
}.

(** [CLI]: the settings, the values of the flags of this invocation and the
    bytes read from standard input.  (The fields that only locate the
    configuration file, and the flag set, take no part in what is modelled.) *)
Record CLI : Type := mkCLI {
  config : Config;
  token : string;
  channelID : string;
  serverID : string;
  username : string;
  tags : string;
  tagMode : string;
  properties : string;
  propertyMode : string;
  debug : bool;
  passthrough : bool;
  stdinData : string;
  maxMessageSize : Z;
  messageMode : string;
  threadName : string
}.

(** ** Message segmentation *)

(** [getEffectiveMaxMessageSize] *)
Definition getEffectiveMaxMessageSize (c : CLI) : Z :=
  if MaxMessageSize (config c) <=? 0 then DefaultMaxMessageSize
  else MaxMessageSize (config c).

(** The [for len(remaining) > 0] loop of [splitMessage].  One unit of fuel
    is spent per iteration that runs. *)
Fixpoint serializeLoop (fuel : nat) (maxSize : Z) (messages : list string)
    (remaining : string) : outcome (list string) :=
  if 0 <? strings.len remaining then
    match fuel with
    | O => OutOfFuel
    | S fuel' =>
        let splitAt := maxSize in
        let splitAt :=
          if strings.len remaining <? splitAt then strings.len remaining
          else splitAt in
        splitAt ←
          (if splitAt <? strings.len remaining then
             window ← strings.slice_to remaining splitAt;
             let lastNewline := strings.LastIndex window "010"%char in
             mret (if 0 <? lastNewline then lastNewline + 1 else splitAt)
           else mret splitAt);
        chunk ← strings.slice_to remaining splitAt;
        rest ← strings.slice_from remaining splitAt;
        serializeLoop fuel' maxSize (messages ++ [chunk]) rest
    end
  else Done messages.

(** [splitMessage].  The loop gets one unit of fuel per byte of [content]. *)
Definition splitMessage (c : CLI) (content : string) : outcome (list string) :=
  let maxSize := getEffectiveMaxMessageSize c in
  if strings.len content <=? maxSize then Done [content]
  else if String.eqb (MessageMode (config c)) ModeTruncate then
    chunk ← strings.slice_to content maxSize; mret [chunk]
  else if String.eqb (MessageMode (config c)) ModeSerialize then
    serializeLoop (String.length content) maxSize [] content
  else
    chunk ← strings.slice_to content maxSize; mret [chunk].

(** ** Tags and properties *)

(** [parseTags] *)
Definition parseTags (tagStr : string) : list string :=
  if String.eqb tagStr "" then []
  else map strings.TrimSpace (strings.Split tagStr ","%char).

(** The body of the loop of [parseProperties]: one pair. *)
Definition parsePair (props : gmap string string) (pair : string)
    : gmap string string :=
  let kv := strings.Split (strings.TrimSpace pair) ":"%char in
  match kv with
  | [k; v] => <[strings.TrimSpace k := strings.TrimSpace v]> props
  | _ => props
  end.

(** [parseProperties] *)
Definition parseProperties (propStr : string) : gmap string string :=
  if String.eqb propStr "" then ∅
  else foldl parsePair ∅ (strings.Split propStr ";"%char).

(** The keys of a map in the order [for t := range m] visits them.  Go leaves
    that order unspecified; the model visits them in the order of
    [map_to_list], and nothing proved below depends on which order it is. *)
Definition rangeKeys {A} (m : gmap string A) : list string :=
  (map_to_list m).*1.

(** [for _, t := range ts { tagMap[t] = true }] *)
Definition markTags (tagMap : gmap string bool) (ts : list string)
    : gmap string bool :=
  foldl (fun m t => <[t := true]> m) tagMap ts.

(** [for k, v := range newProps { props[k] = v }] *)
Definition assignAll (props newProps : gmap string string)
    : gmap string string :=
  map_fold (fun k v acc => <[k := v]> acc) props newProps.

(** Field updates of [Config] and [CLI]. *)
Definition set_Token (v : string) (g : Config) : Config :=
  mkConfig v (ChannelID g) (ServerID g) (Username g) (Tags g) (TagMode g)
    (Properties g) (PropertyMode g) (Debug g) (MaxMessageSize g)
    (MessageMode g) (ThreadName g) (Passthrough g).
Definition set_ChannelID (v : string) (g : Config) : Config :=
  mkConfig (Token g) v (ServerID g) (Username g) (Tags g) (TagMode g)
    (Properties g) (PropertyMode g) (Debug g) (MaxMessageSize g)
    (MessageMode g) (ThreadName g) (Passthrough g).
Definition set_ServerID (v : string) (g : Config) : Config :=
  mkConfig (Token g) (ChannelID g) v (Username g) (Tags g) (TagMode g)
    (Properties g) (PropertyMode g) (Debug g) (MaxMessageSize g)
    (MessageMode g) (ThreadName g) (Passthrough g).
Definition set_Username (v : string) (g : Config) : Config :=
  mkConfig (Token g) (ChannelID g) (ServerID g) v (Tags g) (TagMode g)
    (Properties g) (PropertyMode g) (Debug g) (MaxMessageSize g)
    (MessageMode g) (ThreadName g) (Passthrough g).
Definition set_Tags (v : list string) (g : Config) : Config :=
  mkConfig (Token g) (ChannelID g) (ServerID g) (Username g) v (TagMode g)
    (Properties g) (PropertyMode g) (Debug g) (MaxMessageSize g)
    (MessageMode g) (ThreadName g) (Passthrough g).
Definition set_TagMode (v : string) (g : Config) : Config :=
  mkConfig (Token g) (ChannelID g) (ServerID g) (Username g) (Tags g) v
    (Properties g) (PropertyMode g) (Debug g) (MaxMessageSize g)
    (MessageMode g) (ThreadName g) (Passthrough g).
Definition set_Properties (v : option (gmap string string)) (g : Config)
    : Config :=
  mkConfig (Token g) (ChannelID g) (ServerID g) (Username g) (Tags g)
    (TagMode g) v (PropertyMode g) (Debug g) (MaxMessageSize g)
    (MessageMode g) (ThreadName g) (Passthrough g).
Definition set_PropertyMode (v : string) (g : Config) : Config :=
  mkConfig (Token g) (ChannelID g) (ServerID g) (Username g) (Tags g)
    (TagMode g) (Properties g) v (Debug g) (MaxMessageSize g)
    (MessageMode g) (ThreadName g) (Passthrough g).
Definition set_Debug (v : bool) (g : Config) : Config :=
  mkConfig (Token g) (ChannelID g) (ServerID g) (Username g) (Tags g)
    (TagMode g) (Properties g) (PropertyMode g) v (MaxMessageSize g)
    (MessageMode g) (ThreadName g) (Passthrough g).
Definition set_MaxMessageSize (v : Z) (g : Config) : Config :=
  mkConfig (Token g) (ChannelID g) (ServerID g) (Username g) (Tags g)
    (TagMode g) (Properties g) (PropertyMode g) (Debug g) v
    (MessageMode g) (ThreadName g) (Passthrough g).
Definition set_MessageMode (v : string) (g : Config) : Config :=
  mkConfig (Token g) (ChannelID g) (ServerID g) (Username g) (Tags g)
    (TagMode g) (Properties g) (PropertyMode g) (Debug g) (MaxMessageSize g)
    v (ThreadName g) (Passthrough g).
Definition set_ThreadName (v : string) (g : Config) : Config :=
  mkConfig (Token g) (ChannelID g) (ServerID g) (Username g) (Tags g)
    (TagMode g) (Properties g) (PropertyMode g) (Debug g) (MaxMessageSize g)
    (MessageMode g) v (Passthrough g).
Definition set_Passthrough (v : bool) (g : Config) : Config :=
  mkConfig (Token g) (ChannelID g) (ServerID g) (Username g) (Tags g)
    (TagMode g) (Properties g) (PropertyMode g) (Debug g) (MaxMessageSize g)
    (MessageMode g) (ThreadName g) v.
Definition set_config (g : Config) (c : CLI) : CLI :=
  mkCLI g (token c) (channelID c) (serverID c) (username c) (tags c)
    (tagMode c) (properties c) (propertyMode c) (debug c) (passthrough c)
    (stdinData c) (maxMessageSize c) (messageMode c) (threadName c).

(** [s != ""] *)
Definition nonEmpty (s : string) : bool := negb (String.eqb s "").

(** The tag part of [mergeFlags]. *)
Definition mergeTags (c : CLI) (g : Config) : Config :=
  if nonEmpty (tags c) then
    let newTags := parseTags (tags c) in
    if String.eqb (TagMode g) ModeReplace then set_Tags newTags g
    else
      let tagMap := markTags ∅ (Tags g) in
      let tagMap := markTags tagMap newTags in
      set_Tags (rangeKeys tagMap) g
  else g.

(** The property part of [mergeFlags]. *)
Definition mergeProperties (c : CLI) (g : Config) : Config :=
  if nonEmpty (properties c) then
    let newProps := parseProperties (properties c) in
    if String.eqb (PropertyMode g) ModeReplace
    then set_Properties (Some newProps) g
    else
      let props :=
        match Properties g with
        | None => ∅
        | Some m => m
        end in
      set_Properties (Some (assignAll props newProps)) g
  else g.

(** The first part of [mergeFlags]: the fields that hold one value, in the
    order of the source. *)
Definition mergeScalars (c : CLI) : Config :=
  let g := config c in
  let g := if nonEmpty (token c) then set_Token (token c) g else g in
  let g := if nonEmpty (channelID c) then set_ChannelID (channelID c) g
           else g in
  let g := if nonEmpty (serverID c) then set_ServerID (serverID c) g else g in
  let g := if nonEmpty (username c) then set_Username (username c) g else g in
  let g := if debug c then set_Debug true g else g in
  let g := if passthrough c then set_Passthrough true g else g in
  let g := if nonEmpty (tagMode c) then set_TagMode (tagMode c) g else g in
  let g := if nonEmpty (propertyMode c)
           then set_PropertyMode (propertyMode c) g else g in
  let g := if negb (maxMessageSize c =? DefaultMaxMessageSize)
           then set_MaxMessageSize (maxMessageSize c) g else g in
  let g := if nonEmpty (messageMode c)
           then set_MessageMode (messageMode c) g else g in
  let g := if nonEmpty (threadName c) then set_ThreadName (threadName c) g
           else g in
  g.

(** [mergeFlags]: the single-valued fields, then the tags, then the
    properties; the result replaces [c.config]. *)
Definition mergeFlags (c : CLI) : CLI :=
  let g := mergeScalars c in
  let g := mergeTags c g in
  let g := mergeProperties c g in
  set_config g c.

(** ** Delivery *)

(** What [sendToDiscord] returns when it fails; [cause] is the error of the
    Discord client that it wraps. *)
Inductive error : Type :=
| ErrTokenNotConfigured
| ErrChannelNotConfigured
| ErrCreatingSession (cause : string)
| ErrSendingThreadStarter (cause : string)
| ErrCreatingThread (cause : string)
| ErrSendingPart (i n : Z) (cause : string).

(** The lines [sendToDiscord] logs in debug mode. *)
Inductive logLine : Type :=
| LogSplitting (contentLen parts : Z)
| LogCreatedThread (name id : string)
| LogThreadNameFromFlag
| LogThreadNameFromConfig
| LogSendingPart (i n len : Z).

(** What [sendToDiscord] does to the outside, in order. *)
Inductive event : Type :=
| EvNew (token : string)
| EvChannelMessageSend (channelID content : string)
| EvMessageThreadStart (channelID messageID name : string) (archive : Z)
| EvClose
| EvLog (l : logLine).

(** The Discord client, as far as the program sees it: what each call
    answers, given everything done before it.  [inl] is an error. *)
Record Discord : Type := mkDiscord {
  (** [discordgo.New(token)] *)
  New : string -> option string;
  (** [ChannelMessageSend(channelID, content)]: the ID of the message *)
  ChannelMessageSend : list event -> string -> string -> string + string;
  (** [MessageThreadStart(channelID, messageID, name, archive)]: the ID and
      the name of the thread *)
  MessageThreadStart :
    list event -> string -> string -> string -> Z -> string + (string * string)
}.

(** The fixed text before the thread name in the thread starter message, byte
    for byte as in the source file. *)
Definition threadStarterPrefix : string :=
  String.app
    (string_of_list_ascii
       (map ascii_of_nat [195; 176; 197; 184; 226; 128; 156; 197; 146]%nat))
    " New thread: ".

(** The loop [for i, msg := range messages] of [sendToDiscord]; [i] counts
    from 0 and [n] is [len(messages)]. *)
Fixpoint sendParts (dg : Discord) (g : Config) (threadID : string) (n i : Z)
    (messages : list string) (tr : list event) : list event * option error :=
  match messages with
  | [] => (tr, None)
  | msg :: rest =>
      let tr :=
        if Debug g then tr ++ [EvLog (LogSendingPart (i + 1) n (strings.len msg))]
        else tr in
      let targetChannel :=
        if nonEmpty threadID then threadID else ChannelID g in
      let tr' := tr ++ [EvChannelMessageSend targetChannel msg] in
      match ChannelMessageSend dg tr targetChannel msg with
      | inl e => (tr', Some (ErrSendingPart (i + 1) n e))
      | inr _ => sendParts dg g threadID n (i + 1) rest tr'
      end
  end.

(** The thread creation of [sendToDiscord]: the events, and the ID of the
    thread or the error. *)
Definition startThread (dg : Discord) (c : CLI) (tr : list event)
    : list event * (error + string) :=
  let g := config c in
  let threadStarter := String.app threadStarterPrefix (ThreadName g) in
  let tr1 := tr ++ [EvChannelMessageSend (ChannelID g) threadStarter] in
  match ChannelMessageSend dg tr (ChannelID g) threadStarter with
  | inl e => (tr1, inl (ErrSendingThreadStarter e))
  | inr msgID =>
      let tr2 :=
        tr1 ++ [EvMessageThreadStart (ChannelID g) msgID (ThreadName g) 60] in
      match MessageThreadStart dg tr1 (ChannelID g) msgID (ThreadName g) 60 with
      | inl e => (tr2, inl (ErrCreatingThread e))
      | inr (threadID, threadNm) =>
          let tr3 :=
            if Debug g then
              tr2 ++ [EvLog (LogCreatedThread threadNm threadID);
                      EvLog (if nonEmpty (threadName c)
                             then LogThreadNameFromFlag
                             else LogThreadNameFromConfig)]
            else tr2 in
          (tr3, inr threadID)
      end
  end.

(** [sendToDiscord]: the events it causes and what it returns ([None] is the
    nil error).  The deferred [discord.Close()] runs on every way out once
    the session exists. *)
Definition sendToDiscord (dg : Discord) (c : CLI)
    : list event * outcome (option error) :=
  let g := config c in
  if String.eqb (Token g) "" then ([], Done (Some ErrTokenNotConfigured))
  else if String.eqb (ChannelID g) ""
  then ([], Done (Some ErrChannelNotConfigured))
  else if strings.len (stdinData c) =? 0 then ([], Done None)
  else
    let tok := Token g in
    let tok :=
      if negb (strings.HasPrefix tok "Bot ") then String.app "Bot " tok
      else tok in
    match New dg tok with
    | Some e => ([EvNew tok], Done (Some (ErrCreatingSession e)))
    | None =>
        let tr := [EvNew tok] in
        let content := stdinData c in
        match splitMessage c content with
        | Panic => (tr ++ [EvClose], Panic)
        | OutOfFuel => (tr, OutOfFuel)
        | Done messages =>
            let n := Z.of_nat (length messages) in
            let tr :=
              if Debug g
              then tr ++ [EvLog (LogSplitting (strings.len content) n)]
              else tr in
            let '(tr, th) :=
              if nonEmpty (ThreadName g) then startThread dg c tr
              else (tr, inr "") in
            match th with
            | inl e => (tr ++ [EvClose], Done (Some e))
            | inr threadID =>
                let '(tr, r) := sendParts dg g threadID n 0 messages tr in
                (tr ++ [EvClose], Done r)
            end
        end
    end.

(** ** Notions the properties are stated with *)

(** The chunks of a sequence, joined in order. *)
Definition joinChunks (chunks : list string) : string :=
  foldr String.app "" chunks.

(** Where one iteration of the loop cuts [remaining]. *)
Definition cutPoint (maxSize : Z) (remaining : string) : Z :=
  let splitAt :=
    if strings.len remaining <? maxSize then strings.len remaining
    else maxSize in
  if splitAt <? strings.len remaining then
    let lastNewline :=
      strings.LastIndex (strings.take_bytes (Z.to_nat splitAt) remaining)
        "010"%char in
    if 0 <? lastNewline then lastNewline + 1 else splitAt
  else splitAt.

(** How many bytes of [s] are [c]. *)
Fixpoint countByte (c : ascii) (s : string) : nat :=
  match s with
  | EmptyString => O
  | String a s' => ((if Ascii.eqb a c then 1 else 0) + countByte c s')%nat
  end.

(** The bytes of [s] before its first [c] (all of [s] when it has none). *)
Fixpoint beforeFirst (c : ascii) (s : string) : string :=
  match s with
  | EmptyString => EmptyString
  | String a s' => if Ascii.eqb a c then EmptyString
                   else String a (beforeFirst c s')
  end.

(** The bytes of [s] after its first [c] (none when it has none). *)
Fixpoint afterFirst (c : ascii) (s : string) : string :=
  match s with
  | EmptyString => EmptyString
  | String a s' => if Ascii.eqb a c then s' else afterFirst c s'
  end.

(** Property parsing as the specification words it: each pair is split on
    its first colon into a key and a value, both trimmed; a pair without a
    colon is dropped. *)
Definition parsePairFirstColon (props : gmap string string) (pair : string)
    : gmap string string :=
  if (0 <? countByte ":"%char pair)%nat
  then <[strings.TrimSpace (beforeFirst ":"%char pair) :=
           strings.TrimSpace (afterFirst ":"%char pair)]> props
  else props.

Definition parsePropertiesFirstColon (propStr : string)
    : gmap string string :=
  if String.eqb propStr "" then ∅
  else foldl parsePairFirstColon ∅ (strings.Split propStr ";"%char).

(** Property parsing where a pair counts only if, once trimmed, it has
    exactly one colon: the key is what is before it and the value what is
    after it, both trimmed; every other pair is dropped. *)
Definition parsePairOneColon (props : gmap string string) (pair : string)
    : gmap string string :=
  let p := strings.TrimSpace pair in
  if (countByte ":"%char p =? 1)%nat
  then <[strings.TrimSpace (beforeFirst ":"%char p) :=
           strings.TrimSpace (afterFirst ":"%char p)]> props
  else props.

Definition parsePropertiesOneColon (propStr : string) : gmap string string :=
  if String.eqb propStr "" then ∅
  else foldl parsePairOneColon ∅ (strings.Split propStr ";"%char).

(** The property map of a configuration, read as Go reads it: a nil map has
    no entries. *)
Definition propertiesOf (g : Config) : gmap string string :=
  match Properties g with
  | Some m => m
  | None => ∅
  end.

(** The mode the tags and the properties are merged with: the flag when it
    is given, the persisted mode otherwise. *)
Definition effectiveTagMode (c : CLI) : string :=
  if nonEmpty (tagMode c) then tagMode c else TagMode (config c).

Definition effectivePropertyMode (c : CLI) : string :=
  if nonEmpty (propertyMode c) then propertyMode c
  else PropertyMode (config c).

(** [strings.Repeat(s, count)] *)
Fixpoint Repeat (s : string) (count : nat) : string :=
  match count with
  | O => EmptyString
  | S n => String.app s (Repeat s n)
  end.

(** ** Configurations the properties are tried on *)

(** The configuration [createDefaultConfig] writes. *)
Definition defaultConfig : Config :=
  mkConfig "" "" "" "disgo-bot" [] "merge" (Some ∅) "merge" false
    DefaultMaxMessageSize ModeSerialize "" false.

(** The same with a token and a channel. *)
Definition configured : Config :=
  set_ChannelID "1234" (set_Token "secret" defaultConfig).

(** An invocation without any flag: what [parseFlags] leaves when no
    argument is given. *)
Definition noFlags (g : Config) (stdin : string) : CLI :=
  mkCLI g "" "" "" "" "" "merge" "" "merge" false false stdin
    DefaultMaxMessageSize ModeSerialize "".

(** An invocation with [--tags] and [--tag-mode]. *)
Definition tagFlags (g : Config) (tagStr mode : string) : CLI :=
  mkCLI g "" "" "" "" tagStr mode "" "merge" false false ""
    DefaultMaxMessageSize ModeSerialize "".

(** An invocation with [--properties] and [--property-mode]. *)
Definition propertyFlags (g : Config) (propStr mode : string) : CLI :=
  mkCLI g "" "" "" "" "" "merge" propStr mode false false ""
    DefaultMaxMessageSize ModeSerialize "".

(** A line feed. *)
Definition nl : string := String "010"%char "".

(** Three lines, 13 bytes. *)
Definition threeLines : string :=
  String.app "one" (String.app nl (String.app "two" (String.app nl "three"))).

(** The persisted tags and properties of the tests of the repository. *)
Definition oneTwoTags : Config := set_Tags ["one"; "two"] defaultConfig.

Definition oneTwoProperties : Config :=
  set_Properties (Some (<["one" := "1"]> (<["two" := "2"]> ∅))) defaultConfig.

(** A Discord client that accepts every call. *)
Definition acceptingDiscord : Discord :=
  mkDiscord (fun _ => None) (fun _ _ _ => inr "1")
    (fun _ _ _ _ _ => inr ("2", "thread")).

(** ** The rest of the program: [main] *)

(** What [main] has when it reaches [mergeFlags]: [parseFlags], [readStdin]
    and [loadConfig] are run in this order, the first that fails ends the
    program, and otherwise they leave the flags, the input and the loaded
    configuration in the [CLI]. *)
Inductive startup : Type :=
| FlagsFailed (e : string)
| StdinFailed (e : string)
| ConfigFailed (e : string)
| Loaded (c : CLI).

(** The messages [main] prints on the error stream before [os.Exit(1)]. *)
Inductive failure : Type :=
| ParsingFlags (e : string)
| ReadingStdin (e : string)
| LoadingConfig (e : string)
| SendingToDiscord (e : error).

(** What [main] does to the outside, in order.  [LogSettings g] stands for
    the block of [log.Printf] lines that print the settings [g] in debug
    mode, [ToDiscord e] is an event of [sendToDiscord] (its debug log lines
    included) and [Stderr f] is the error message printed before
    [os.Exit(1)]. *)
Inductive effect : Type :=
| LogSettings (g : Config)
| Stdout (bytes : string)
| ToDiscord (e : event)
| Stderr (f : failure).

(** [main]: its effects and its exit status (0 when it returns, 1 for
    [os.Exit(1)]). *)
Definition main (dg : Discord) (s : startup) : list effect * outcome Z :=
  match s with
  | FlagsFailed e => ([Stderr (ParsingFlags e)], Done 1)
  | StdinFailed e => ([Stderr (ReadingStdin e)], Done 1)
  | ConfigFailed e => ([Stderr (LoadingConfig e)], Done 1)
  | Loaded cli =>
      let cli := mergeFlags cli in
      let fx := if Debug (config cli) then [LogSettings (config cli)] else [] in
      let fx :=
        if Passthrough (config cli) && (0 <? strings.len (stdinData cli))
        then fx ++ [Stdout (stdinData cli)]
        else fx in
      let '(evs, r) := sendToDiscord dg cli in
      let fx := fx ++ map ToDiscord evs in
      match r with
      | Done None => (fx, Done 0)
      | Done (Some e) => (fx ++ [Stderr (SendingToDiscord e)], Done 1)
      | Panic => (fx, Panic)
      | OutOfFuel => (fx, OutOfFuel)
      end
  end.

(** ** More notions the properties are stated with *)

(** The first and the last byte of a string. *)
Definition firstByte (s : string) : option ascii :=
  match s with
  | EmptyString => None
  | String a _ => Some a
  end.

Fixpoint lastByte (s : string) : option ascii :=
  match s with
  | EmptyString => None
  | String a EmptyString => Some a
  | String _ s' => lastByte s'
  end.

(** [b] is one of tab, line feed, vertical tab, form feed, carriage return
    and space. *)
Definition isAsciiSpace (b : option ascii) : bool :=
  match b with
  | Some a => strings.asciiSpace a
  | None => false
  end.

(** A chunk that the serialize loop cut where the specification wants it:
    just after a line feed, or, when the first [maxSize] bytes have no line
    feed after their first byte, at [maxSize] bytes. *)
Definition cutAtLine (maxSize : Z) (chunk : string) : Prop :=
  lastByte chunk = Some "010"%char
  \/ (strings.len chunk = maxSize
      /\ countByte "010"%char (strings.drop_bytes 1 chunk) = O).

(** The calls of [ChannelMessageSend] in a sequence of events: the channel
    and the content of each, in order. *)
Definition sentMessages (tr : list event) : list (string * string) :=
  omap (fun e => match e with
                 | EvChannelMessageSend ch m => Some (ch, m)
                 | _ => None
                 end) tr.

(** The events of a run of [main] that reach Discord. *)
Definition discordEvents (fx : list effect) : list event :=
  omap (fun x => match x with
                 | ToDiscord e => Some e
                 | _ => None
                 end) fx.

(** What [main] wrote to standard output, write by write. *)
Definition stdoutWrites (fx : list effect) : list string :=
  omap (fun x => match x with
                 | Stdout b => Some b
                 | _ => None
                 end) fx.

(** The token [sendToDiscord] opens the session with. *)
Definition sessionToken (g : Config) : string :=
  if strings.HasPrefix (Token g) "Bot " then Token g
  else String.app "Bot " (Token g).

(** A Discord client whose session opens and whose every call succeeds. *)
Definition accepts (dg : Discord) : Prop :=
  (forall tok, New dg tok = None)
  /\ (forall tr ch m, exists id, ChannelMessageSend dg tr ch m = inr id)
  /\ (forall tr ch id nm a, exists th,
        MessageThreadStart dg tr ch id nm a = inr th).

(** A Discord client that refuses every message. *)
Definition refusingDiscord : Discord :=
  mkDiscord (fun _ => None) (fun _ _ _ => inl "refused")
    (fun _ _ _ _ _ => inl "refused").

(** ** The logging example: the command line [DisgoWriter.Write] builds *)

Module logging.

(** [DisgoWriter] *)
Record DisgoWriter : Type := mkDisgoWriter {
  Config : string;
  ThreadName : string;
  Tags : string;
  Level : string
}.

(** The value of the variable [tags] of [Write] when the command line is
    built: the base tags, and the tags of the level after a comma. *)
Definition writeTags (w : DisgoWriter) : string :=
  let tags := Tags w in
  if String.eqb (Level w) "ERROR" || String.eqb (Level w) "FATAL" then
    let tags := if nonEmpty tags then String.app tags "," else tags in
    String.app tags "error,critical"
  else if String.eqb (Level w) "WARN" || String.eqb (Level w) "WARNING" then
    let tags := if nonEmpty tags then String.app tags "," else tags in
    String.app tags "warning"
  else tags.

(** [cmd.Args] when [Write] starts the command. *)
Definition writeArgs (w : DisgoWriter) : list string :=
  let args := ["disgo"; "--config"; Config w] in
  let args :=
    if nonEmpty (ThreadName w) then args ++ ["--thread"; ThreadName w]
    else args in
  let tags := writeTags w in
  if nonEmpty tags then args ++ ["--tags"; tags] else args.

(** The tags that stand for a level. *)
Definition levelTags (level : string) : list string :=
  if String.eqb level "ERROR" || String.eqb level "FATAL"
  then ["error"; "critical"]
  else if String.eqb level "WARN" || String.eqb level "WARNING"
  then ["warning"]
  else [].

End logging.

(** ** Facts about strings *)

Lemma len_nonneg (s : string) : 0 <= strings.len s.
Proof. unfold strings.len. lia. Qed.

Lemma app_String (a : ascii) (s t : string) :
  String.app (String a s) t = String a (String.app s t).
Proof. reflexivity. Qed.

Lemma app_empty (t : string) : String.app "" t = t.
Proof. reflexivity. Qed.

Lemma len_app (s t : string) :
  strings.len (String.app s t) = strings.len s + strings.len t.
Proof.
  unfold strings.len.
  induction s as [|a s IH];
    rewrite ?app_String, ?app_empty; cbn [String.length]; lia.
Qed.

Lemma take_drop_bytes (n : nat) (s : string) :
  String.app (strings.take_bytes n s) (strings.drop_bytes n s) = s.
Proof.
  revert s. induction n as [|n IH]; intros [|a s]; simpl;
    rewrite ?app_String, ?app_empty; try reflexivity.
  now rewrite IH.
Qed.

Lemma length_take_bytes (n : nat) (s : string) :
  String.length (strings.take_bytes n s) = Nat.min n (String.length s).
Proof.
  revert s. induction n as [|n IH]; intros [|a s]; simpl; try reflexivity.
  now rewrite IH.
Qed.

Lemma length_drop_bytes (n : nat) (s : string) :
  String.length (strings.drop_bytes n s) = (String.length s - n)%nat.
Proof.
  revert s. induction n as [|n IH]; intros [|a s]; simpl; try reflexivity.
  now rewrite IH.
Qed.

Lemma take_bytes_all (n : nat) (s : string) :
  (String.length s <= n)%nat -> strings.take_bytes n s = s.
Proof.
  revert s. induction n as [|n IH]; intros [|a s]; simpl; intros H;
    try reflexivity; try lia.
  rewrite IH; [reflexivity | lia].
Qed.

Lemma last_index_lt (s : string) (c : ascii) (i : nat) :
  strings.last_index s c = Some i -> (i < String.length s)%nat.
Proof.
  revert i. induction s as [|a s IH]; simpl; intros i H; [discriminate|].
  destruct (strings.last_index s c) as [j|].
  - injection H as <-. specialize (IH j eq_refl). lia.
  - destruct (Ascii.eqb a c); [injection H as <-; lia | discriminate].
Qed.

(** [LastIndex] answers -1 or a position inside the string. *)
Lemma LastIndex_range (s : string) (c : ascii) :
  strings.LastIndex s c = -1 \/ 0 <= strings.LastIndex s c < strings.len s.
Proof.
  unfold strings.LastIndex, strings.len.
  destruct (strings.last_index s c) as [i|] eqn:E; [right | now left].
  apply last_index_lt in E. lia.
Qed.

(** In range, the slice expressions do not panic. *)
Lemma slice_to_ok (s : string) (hi : Z) :
  0 <= hi <= strings.len s ->
  strings.slice_to s hi = Done (strings.take_bytes (Z.to_nat hi) s).
Proof.
  intros H. unfold strings.slice_to.
  destruct (Z.leb_spec 0 hi), (Z.leb_spec hi (strings.len s)); simpl;
    solve [reflexivity | lia].
Qed.

Lemma slice_from_ok (s : string) (lo : Z) :
  0 <= lo <= strings.len s ->
  strings.slice_from s lo = Done (strings.drop_bytes (Z.to_nat lo) s).
Proof.
  intros H. unfold strings.slice_from.
  destruct (Z.leb_spec 0 lo), (Z.leb_spec lo (strings.len s)); simpl;
    solve [reflexivity | lia].
Qed.

Lemma len_take_bytes (n : Z) (s : string) :
  0 <= n <= strings.len s ->
  strings.len (strings.take_bytes (Z.to_nat n) s) = n.
Proof.
  intros H. unfold strings.len in *. rewrite length_take_bytes. lia.
Qed.

Lemma joinChunks_app (xs ys : list string) :
  joinChunks (xs ++ ys) = String.app (joinChunks xs) (joinChunks ys).
Proof.
  induction xs as [|x xs IH]; simpl; [reflexivity|].
  rewrite IH. induction x as [|a x IHx];
    rewrite ?app_String, ?app_empty; [reflexivity|].
  now rewrite IHx.
Qed.

(** ** The serialize loop *)

Lemma cutPoint_range (maxSize : Z) (remaining : string) :
  0 < maxSize -> 0 < strings.len remaining ->
  0 < cutPoint maxSize remaining <= strings.len remaining
  /\ cutPoint maxSize remaining <= maxSize.
Proof.
  intros Hm Hr. unfold cutPoint.
  destruct (Z.ltb_spec (strings.len remaining) maxSize) as [H1|H1].
  - rewrite Z.ltb_irrefl. lia.
  - destruct (Z.ltb_spec maxSize (strings.len remaining)) as [H2|H2]; [|lia].
    destruct (LastIndex_range
      (strings.take_bytes (Z.to_nat maxSize) remaining) "010"%char) as [E|E].
    + rewrite E. simpl. lia.
    + rewrite len_take_bytes in E by lia.
      destruct (Z.ltb_spec 0
        (strings.LastIndex (strings.take_bytes (Z.to_nat maxSize) remaining)
           "010"%char)); lia.
Qed.

(** One iteration that runs: it appends the bytes before the cut point and
    goes on with the rest. *)
Lemma serializeLoop_step (fuel : nat) (maxSize : Z) (messages : list string)
    (remaining : string) :
  0 < maxSize -> 0 < strings.len remaining ->
  serializeLoop (S fuel) maxSize messages remaining =
  serializeLoop fuel maxSize
    (messages ++
       [strings.take_bytes (Z.to_nat (cutPoint maxSize remaining)) remaining])
    (strings.drop_bytes (Z.to_nat (cutPoint maxSize remaining)) remaining).
Proof.
  intros Hm Hr.
  pose proof (cutPoint_range maxSize remaining Hm Hr) as [Hc _].
  unfold cutPoint in *. simpl serializeLoop.
  destruct (Z.ltb_spec 0 (strings.len remaining)) as [_|]; [|lia].
  set (splitAt := if strings.len remaining <? maxSize
                  then strings.len remaining else maxSize) in *.
  assert (0 <= splitAt <= strings.len remaining) as Hs.
  { subst splitAt.
    destruct (Z.ltb_spec (strings.len remaining) maxSize); lia. }
  destruct (splitAt <? strings.len remaining) eqn:E.
  - rewrite (slice_to_ok remaining splitAt Hs). simpl.
    rewrite slice_to_ok by lia. simpl.
    rewrite slice_from_ok by lia. reflexivity.
  - simpl. rewrite slice_to_ok by lia. simpl.
    rewrite slice_from_ok by lia. reflexivity.
Qed.

Lemma serializeLoop_empty (fuel : nat) (maxSize : Z) (messages : list string)
    (remaining : string) :
  strings.len remaining = 0 ->
  serializeLoop fuel maxSize messages remaining = Done messages.
Proof.
  intros H. destruct fuel; simpl; rewrite H; reflexivity.
Qed.

(** With a positive limit and a unit of fuel per byte, the loop ends and
    appends chunks that are non-empty, within the limit, and that together
    are [remaining]. *)
Lemma serializeLoop_chunks (fuel : nat) (maxSize : Z) :
  0 < maxSize ->
  forall (messages : list string) (remaining : string),
    (String.length remaining <= fuel)%nat ->
    exists chunks : list string,
      serializeLoop fuel maxSize messages remaining = Done (messages ++ chunks)
      /\ joinChunks chunks = remaining
      /\ Forall (fun ch => 0 < strings.len ch <= maxSize) chunks.
Proof.
  intros Hm. induction fuel as [|fuel IH]; intros messages remaining Hf.
  - exists []. rewrite serializeLoop_empty by (unfold strings.len; lia).
    rewrite app_nil_r. destruct remaining; [|simpl in Hf; lia].
    repeat split. constructor.
  - destruct (Z.eq_dec (strings.len remaining) 0) as [H0|H0].
    + exists []. rewrite serializeLoop_empty by assumption.
      rewrite app_nil_r. destruct remaining; [|unfold strings.len in H0;
        simpl in H0; lia].
      repeat split. constructor.
    + pose proof (len_nonneg remaining) as Hn.
      assert (0 < strings.len remaining) as Hr by lia.
      rewrite serializeLoop_step by assumption.
      pose proof (cutPoint_range maxSize remaining Hm Hr) as [Hc Hc'].
      set (k := cutPoint maxSize remaining) in *.
      destruct (IH (messages ++ [strings.take_bytes (Z.to_nat k) remaining])
                  (strings.drop_bytes (Z.to_nat k) remaining))
        as (chunks & Hrun & Hjoin & Hall).
      { rewrite length_drop_bytes. unfold strings.len in *. lia. }
      exists (strings.take_bytes (Z.to_nat k) remaining :: chunks).
      split; [|split].
      * rewrite Hrun, <- app_assoc. reflexivity.
      * simpl. rewrite Hjoin. apply take_drop_bytes.
      * constructor; [|assumption]. rewrite len_take_bytes by lia. lia.
Qed.

(** The result does not depend on how much fuel there is beyond one unit
    per byte. *)
Lemma serializeLoop_fuel (fuel fuel' : nat) (maxSize : Z)
    (messages : list string) (remaining : string) :
  0 < maxSize ->
  (String.length remaining <= fuel)%nat ->
  (String.length remaining <= fuel')%nat ->
  serializeLoop fuel maxSize messages remaining =
  serializeLoop fuel' maxSize messages remaining.
Proof.
  intros Hm. revert fuel' messages remaining.
  induction fuel as [|fuel IH]; intros fuel' messages remaining Hf Hf'.
  - rewrite !serializeLoop_empty by (unfold strings.len; lia). reflexivity.
  - destruct (Z.eq_dec (strings.len remaining) 0) as [H0|H0].
    + rewrite !serializeLoop_empty by assumption. reflexivity.
    + pose proof (len_nonneg remaining) as Hn.
      assert (0 < strings.len remaining) as Hr by lia.
      destruct fuel' as [|fuel']; [unfold strings.len in Hr; lia|].
      rewrite !serializeLoop_step by assumption.
      pose proof (cutPoint_range maxSize remaining Hm Hr) as [Hc _].
      apply IH; rewrite length_drop_bytes; unfold strings.len in *; lia.
Qed.

Lemma getEffectiveMaxMessageSize_pos (c : CLI) :
  0 < getEffectiveMaxMessageSize c.
Proof.
  unfold getEffectiveMaxMessageSize, DefaultMaxMessageSize.
  destruct (Z.leb_spec (MaxMessageSize (config c)) 0); lia.
Qed.

Lemma app_empty_r (s : string) : String.app s "" = s.
Proof.
  induction s as [|a s IH]; rewrite ?app_String, ?app_empty; congruence.
Qed.

(** The effective limit, spelled out. *)
Lemma getEffectiveMaxMessageSize_eq (c : CLI) :
  getEffectiveMaxMessageSize c =
  if 0 <? MaxMessageSize (config c) then MaxMessageSize (config c) else 2000.
Proof.
  unfold getEffectiveMaxMessageSize, DefaultMaxMessageSize.
  destruct (Z.leb_spec (MaxMessageSize (config c)) 0),
           (Z.ltb_spec 0 (MaxMessageSize (config c))); lia.
Qed.

(** What [splitMessage] does in each of its four branches. *)
Lemma splitMessage_short (c : CLI) (content : string) :
  strings.len content <= getEffectiveMaxMessageSize c ->
  splitMessage c content = Done [content].
Proof.
  intros H. unfold splitMessage.
  destruct (Z.leb_spec (strings.len content) (getEffectiveMaxMessageSize c));
    [reflexivity | lia].
Qed.

Lemma splitMessage_cut (c : CLI) (content : string) :
  getEffectiveMaxMessageSize c < strings.len content ->
  String.eqb (MessageMode (config c)) ModeSerialize = false ->
  splitMessage c content =
  Done [strings.take_bytes (Z.to_nat (getEffectiveMaxMessageSize c)) content].
Proof.
  intros H Hs. unfold splitMessage.
  pose proof (getEffectiveMaxMessageSize_pos c) as Hp.
  destruct (Z.leb_spec (strings.len content) (getEffectiveMaxMessageSize c));
    [lia|].
  rewrite Hs, slice_to_ok by lia.
  destruct (String.eqb (MessageMode (config c)) ModeTruncate); reflexivity.
Qed.

Lemma splitMessage_loop (c : CLI) (content : string) :
  getEffectiveMaxMessageSize c < strings.len content ->
  MessageMode (config c) = ModeSerialize ->
  splitMessage c content =
  serializeLoop (String.length content) (getEffectiveMaxMessageSize c) []
    content.
Proof.
  intros H Hs. unfold splitMessage.
  destruct (Z.leb_spec (strings.len content) (getEffectiveMaxMessageSize c));
    [lia|].
  rewrite Hs. reflexivity.
Qed.

(** [splitMessage] always returns, and with chunks within the limit. *)
Lemma splitMessage_total (c : CLI) (content : string) :
  exists chunks : list string,
    splitMessage c content = Done chunks
    /\ Forall (fun ch => strings.len ch <= getEffectiveMaxMessageSize c) chunks.
Proof.
  pose proof (getEffectiveMaxMessageSize_pos c) as Hp.
  destruct (Z.le_gt_cases (strings.len content) (getEffectiveMaxMessageSize c))
    as [Hle|Hgt].
  - exists [content]. split; [now apply splitMessage_short|].
    constructor; [assumption | constructor].
  - destruct (String.eqb (MessageMode (config c)) ModeSerialize) eqn:Em.
    + apply String.eqb_eq in Em. rewrite splitMessage_loop by assumption.
      destruct (serializeLoop_chunks (String.length content)
                  (getEffectiveMaxMessageSize c) Hp [] content (Nat.le_refl _))
        as (chunks & Hrun & _ & Hall).
      exists chunks. split; [exact Hrun|].
      eapply Forall_impl; [exact Hall|]. simpl. intros ch Hch. lia.
    + rewrite splitMessage_cut by assumption.
      eexists. split; [reflexivity|].
      constructor; [|constructor]. rewrite len_take_bytes; lia.
Qed.

(** ** Segmentation: the properties *)

(** C1. In serialize mode [splitMessage] returns, and the chunks it returns,
    joined in order, are the content: nothing is added and nothing is
    dropped.  (The effective limit is positive for every configuration.) *)
Theorem splitMessage_serialize_lossless (c : CLI) (content : string) :
  MessageMode (config c) = ModeSerialize ->
  exists chunks : list string,
    splitMessage c content = Done chunks /\ joinChunks chunks = content.
Proof.
  intros Hs.
  pose proof (getEffectiveMaxMessageSize_pos c) as Hp.
  destruct (Z.le_gt_cases (strings.len content) (getEffectiveMaxMessageSize c))
    as [Hle|Hgt].
  - exists [content]. split; [now apply splitMessage_short|].
    simpl. apply app_empty_r.
  - rewrite splitMessage_loop by assumption.
    destruct (serializeLoop_chunks (String.length content)
                (getEffectiveMaxMessageSize c) Hp [] content (Nat.le_refl _))
      as (chunks & Hrun & Hjoin & _).
    exists chunks. split; assumption.
Qed.

(** C2. Whatever the content, the configured size and the message mode,
    [splitMessage] returns, and every chunk it returns is at most the
    effective limit long: the configured size when that is positive, 2000
    otherwise. *)
Theorem splitMessage_chunk_bound (c : CLI) (content : string) :
  exists chunks : list string,
    splitMessage c content = Done chunks
    /\ Forall
         (fun ch =>
            strings.len ch <=
            if 0 <? MaxMessageSize (config c) then MaxMessageSize (config c)
            else 2000)
         chunks.
Proof.
  destruct (splitMessage_total c content) as (chunks & Hrun & Hall).
  exists chunks. split; [exact Hrun|].
  now rewrite <- getEffectiveMaxMessageSize_eq.
Qed.

(** C3. A configured size of 0 or less gives the same chunks as a configured
    size of 2000, for every content and every message mode. *)
Theorem splitMessage_nonpositive_size (c : CLI) (content : string) :
  MaxMessageSize (config c) <= 0 ->
  splitMessage c content =
  splitMessage (set_config (set_MaxMessageSize 2000 (config c)) c) content.
Proof.
  intros H. unfold splitMessage, getEffectiveMaxMessageSize. simpl.
  destruct (Z.leb_spec (MaxMessageSize (config c)) 0); [reflexivity | lia].
Qed.

(** C4. Content no longer than the effective limit comes back as the single
    chunk [content], unchanged, in every message mode. *)
Theorem splitMessage_fits (c : CLI) (content : string) :
  strings.len content <=
    (if 0 <? MaxMessageSize (config c) then MaxMessageSize (config c)
     else 2000) ->
  splitMessage c content = Done [content].
Proof.
  intros H. apply splitMessage_short. now rewrite getEffectiveMaxMessageSize_eq.
Qed.

(** C5. A message mode that is neither "truncate" nor "serialize" (the empty
    string included) gives exactly what truncate mode gives; and with a size
    of 2000 and content of length 2 * 2000 that is one chunk, at most 2000
    long. *)
Theorem splitMessage_other_mode (c : CLI) (content : string) :
  MessageMode (config c) <> ModeTruncate ->
  MessageMode (config c) <> ModeSerialize ->
  splitMessage c content =
  splitMessage (set_config (set_MessageMode ModeTruncate (config c)) c) content
  /\ (MaxMessageSize (config c) = 2000 ->
      strings.len content = 2 * 2000 ->
      exists chunk : string,
        splitMessage c content = Done [chunk] /\ strings.len chunk <= 2000).
Proof.
  intros Ht Hs. apply String.eqb_neq in Ht, Hs. split.
  - unfold splitMessage, getEffectiveMaxMessageSize. simpl.
    rewrite Ht, Hs. reflexivity.
  - intros Hm Hl.
    assert (getEffectiveMaxMessageSize c = 2000) as He.
    { rewrite getEffectiveMaxMessageSize_eq, Hm. reflexivity. }
    rewrite splitMessage_cut by (rewrite ?He; first [lia | assumption]).
    eexists. split; [reflexivity|].
    rewrite He, len_take_bytes; lia.
Qed.

(** ** Property strings *)

Lemma length_Split (s : string) (c : ascii) :
  length (strings.Split s c) = S (countByte c s).
Proof.
  induction s as [|a s IH]; simpl; [reflexivity|].
  destruct (Ascii.eqb a c); simpl; [now rewrite IH|].
  destruct (strings.Split s c) as [|x xs]; simpl in *; lia.
Qed.

Lemma Split_no_sep (s : string) (c : ascii) :
  countByte c s = O -> strings.Split s c = [s].
Proof.
  induction s as [|a s IH]; simpl; [reflexivity|].
  destruct (Ascii.eqb a c); simpl; intros H; [discriminate|].
  now rewrite IH.
Qed.

Lemma Split_one_sep (s : string) (c : ascii) :
  countByte c s = 1%nat ->
  strings.Split s c = [beforeFirst c s; afterFirst c s].
Proof.
  induction s as [|a s IH]; simpl; [discriminate|].
  destruct (Ascii.eqb a c); simpl; intros H.
  - rewrite Split_no_sep by lia. reflexivity.
  - now rewrite IH.
Qed.

(** One pair: the loop body keeps it exactly when it has one colon. *)
Lemma parsePair_one_colon (props : gmap string string) (pair : string) :
  parsePair props pair = parsePairOneColon props pair.
Proof.
  unfold parsePair, parsePairOneColon.
  destruct (Nat.eqb_spec (countByte ":"%char (strings.TrimSpace pair)) 1)
    as [E|E].
  - now rewrite Split_one_sep.
  - pose proof (length_Split (strings.TrimSpace pair) ":"%char) as Hl.
    destruct (strings.Split (strings.TrimSpace pair) ":"%char)
      as [|k [|v [|w ws]]]; simpl in Hl; solve [reflexivity | lia].
Qed.

Lemma foldl_parsePair (pairs : list string) (props : gmap string string) :
  foldl parsePair props pairs = foldl parsePairOneColon props pairs.
Proof.
  revert props. induction pairs as [|p pairs IH]; intros props; simpl;
    [reflexivity|].
  now rewrite parsePair_one_colon, IH.
Qed.

(** C6, as the code has it.  [parseProperties] splits the string on
    semicolons and trims each pair; a pair with exactly one colon gives the
    key before the colon and the value after it, both trimmed; a pair with
    no colon, or with more than one, is dropped without error. *)
Theorem parseProperties_one_colon (propStr : string) :
  parseProperties propStr = parsePropertiesOneColon propStr.
Proof.
  unfold parseProperties, parsePropertiesOneColon.
  destruct (String.eqb propStr ""); [reflexivity|].
  apply foldl_parsePair.
Qed.

(** C6, as stated, fails: a pair whose value contains a colon is not kept
    with the remainder after the first colon as its value; it is dropped. *)
Lemma parseProperties_first_colon_fails :
  parsePropertiesFirstColon "url:http://host" !! "url" = Some "http://host"
  /\ parseProperties "url:http://host" !! "url" = None
  /\ parseProperties "url:http://host" = ∅.
Proof. repeat split; vm_compute; reflexivity. Qed.

(** ** Merging the flags into the configuration *)

Lemma field_if {A : Type} (P : Config -> A) (b : bool) (g1 g2 : Config) :
  P (if b then g1 else g2) = if b then P g1 else P g2.
Proof. destruct b; reflexivity. Qed.

Lemma if_same {A : Type} (b : bool) (x : A) : (if b then x else x) = x.
Proof. destruct b; reflexivity. Qed.

(** Reads field [P] through the conditional assignments of [mergeScalars],
    last assignment first. *)
Ltac read_field P :=
  unfold mergeScalars; cbv zeta;
  repeat (rewrite (field_if P); cbn [P set_Token set_ChannelID set_ServerID
            set_Username set_Debug set_Passthrough set_TagMode
            set_PropertyMode set_MaxMessageSize set_MessageMode
            set_ThreadName];
          rewrite ?if_same);
  try reflexivity.

Lemma mergeScalars_Tags (c : CLI) : Tags (mergeScalars c) = Tags (config c).
Proof. read_field Tags. Qed.

Lemma mergeScalars_Properties (c : CLI) :
  Properties (mergeScalars c) = Properties (config c).
Proof. read_field Properties. Qed.

Lemma mergeScalars_TagMode (c : CLI) :
  TagMode (mergeScalars c) = effectiveTagMode c.
Proof. read_field TagMode. Qed.

Lemma mergeScalars_PropertyMode (c : CLI) :
  PropertyMode (mergeScalars c) = effectivePropertyMode c.
Proof. read_field PropertyMode. Qed.

Lemma mergeScalars_Debug (c : CLI) :
  Debug (mergeScalars c) = Debug (config c) || debug c.
Proof.
  read_field Debug. destruct (debug c), (Debug (config c)); reflexivity.
Qed.

Lemma mergeScalars_Passthrough (c : CLI) :
  Passthrough (mergeScalars c) = Passthrough (config c) || passthrough c.
Proof.
  read_field Passthrough.
  destruct (passthrough c), (Passthrough (config c)); reflexivity.
Qed.

(** The tag part touches only the tags, the property part only the
    properties. *)
Lemma mergeTags_other (c : CLI) (g : Config) :
  Properties (mergeTags c g) = Properties g
  /\ PropertyMode (mergeTags c g) = PropertyMode g
  /\ Debug (mergeTags c g) = Debug g
  /\ Passthrough (mergeTags c g) = Passthrough g.
Proof.
  unfold mergeTags.
  destruct (nonEmpty (tags c)), (String.eqb (TagMode g) ModeReplace);
    repeat split.
Qed.

Lemma mergeProperties_other (c : CLI) (g : Config) :
  Tags (mergeProperties c g) = Tags g
  /\ Debug (mergeProperties c g) = Debug g
  /\ Passthrough (mergeProperties c g) = Passthrough g.
Proof.
  unfold mergeProperties.
  destruct (nonEmpty (properties c)),
           (String.eqb (PropertyMode g) ModeReplace); repeat split.
Qed.

Lemma nonEmpty_true (s : string) : s <> "" -> nonEmpty s = true.
Proof.
  intros H. unfold nonEmpty. apply String.eqb_neq in H. now rewrite H.
Qed.

(** Assigning every entry of [newProps], in whatever order, is the union in
    which [newProps] wins. *)
Lemma assignAll_union (props newProps : gmap string string) :
  assignAll props newProps = newProps ∪ props.
Proof.
  unfold assignAll.
  apply (map_fold_weak_ind
           (fun r (m : gmap string string) => r = m ∪ props)).
  - now rewrite (left_id_L ∅ (∪)).
  - intros k v m r _ ->. now rewrite insert_union_l.
Qed.

(** The properties after [mergeFlags], when the flag is given. *)
Lemma mergeFlags_Properties (c : CLI) :
  properties c <> "" ->
  Properties (config (mergeFlags c)) =
  Some (if String.eqb (effectivePropertyMode c) ModeReplace
        then parseProperties (properties c)
        else parseProperties (properties c) ∪ propertiesOf (config c)).
Proof.
  intros H. unfold mergeFlags. cbn [config set_config].
  unfold mergeProperties. rewrite (nonEmpty_true _ H).
  destruct (mergeTags_other c (mergeScalars c)) as (Hp & Hm & _).
  rewrite Hm, Hp, mergeScalars_PropertyMode, mergeScalars_Properties.
  destruct (String.eqb (effectivePropertyMode c) ModeReplace);
    cbn [Properties set_Properties]; [reflexivity|].
  rewrite assignAll_union. reflexivity.
Qed.

(** C7. With a non-empty property flag: in replace mode the properties
    become exactly the parsed flag, the persisted ones being discarded; in
    merge mode (as in any mode other than replace) every parsed pair is in
    the result, over any persisted entry of the same key, and every persisted
    entry whose key is not among the parsed ones is kept as it was. *)
Theorem mergeFlags_properties_modes (c : CLI) :
  properties c <> "" ->
  (effectivePropertyMode c = ModeReplace ->
   Properties (config (mergeFlags c)) = Some (parseProperties (properties c)))
  /\ (effectivePropertyMode c <> ModeReplace ->
      exists m : gmap string string,
        Properties (config (mergeFlags c)) = Some m
        /\ (forall k v, parseProperties (properties c) !! k = Some v ->
                        m !! k = Some v)
        /\ (forall k, parseProperties (properties c) !! k = None ->
                      m !! k = propertiesOf (config c) !! k)).
Proof.
  intros H. rewrite (mergeFlags_Properties c H). split.
  - intros ->. reflexivity.
  - intros Hm. apply String.eqb_neq in Hm. rewrite Hm.
    eexists. split; [reflexivity|]. split.
    + intros k v Hk. now apply lookup_union_Some_l.
    + intros k Hk. now apply lookup_union_r.
Qed.

(** C8. After [mergeFlags] each of [Debug] and [Passthrough] is the
    persisted value or the flag: a flag that is set turns the field on, and a
    flag that is not set leaves a persisted [true] as it is. *)
Theorem mergeFlags_sticky_booleans (c : CLI) :
  Debug (config (mergeFlags c)) = Debug (config c) || debug c
  /\ Passthrough (config (mergeFlags c)) =
     Passthrough (config c) || passthrough c.
Proof.
  unfold mergeFlags. cbn [config set_config].
  destruct (mergeProperties_other c (mergeTags c (mergeScalars c)))
    as (_ & Hd & Hp).
  destruct (mergeTags_other c (mergeScalars c)) as (_ & _ & Hd' & Hp').
  rewrite Hd, Hp, Hd', Hp', mergeScalars_Debug, mergeScalars_Passthrough.
  split; reflexivity.
Qed.

(** ** Tags *)

Lemma markTags_lookup (ts : list string) (m : gmap string bool) (t : string) :
  is_Some (markTags m ts !! t) <-> is_Some (m !! t) \/ t ∈ ts.
Proof.
  unfold markTags. revert m. induction ts as [|x ts IH]; intros m; simpl.
  - rewrite elem_of_nil. tauto.
  - rewrite IH, elem_of_cons, lookup_insert_is_Some.
    destruct (decide (x = t)) as [->|Hne]; intuition congruence.
Qed.

Lemma rangeKeys_NoDup {A : Type} (m : gmap string A) : NoDup (rangeKeys m).
Proof. apply NoDup_fst_map_to_list. Qed.

Lemma rangeKeys_elem_of {A : Type} (m : gmap string A) (t : string) :
  t ∈ rangeKeys m <-> is_Some (m !! t).
Proof.
  unfold rangeKeys. rewrite list_elem_of_fmap. split.
  - intros [[k v] [-> H]]. apply elem_of_map_to_list in H. now exists v.
  - intros [v H]. exists (t, v). split; [reflexivity|].
    now apply elem_of_map_to_list.
Qed.

(** The tags after [mergeFlags], when the flag is given. *)
Lemma mergeFlags_Tags (c : CLI) :
  tags c <> "" ->
  Tags (config (mergeFlags c)) =
  if String.eqb (effectiveTagMode c) ModeReplace then parseTags (tags c)
  else rangeKeys (markTags (markTags ∅ (Tags (config c))) (parseTags (tags c))).
Proof.
  intros H. unfold mergeFlags. cbn [config set_config].
  destruct (mergeProperties_other c (mergeTags c (mergeScalars c)))
    as (Ht & _).
  rewrite Ht. unfold mergeTags.
  rewrite (nonEmpty_true _ H), mergeScalars_TagMode, mergeScalars_Tags.
  destruct (String.eqb (effectiveTagMode c) ModeReplace); reflexivity.
Qed.

(** C9, as the code has it.  With a non-empty tag flag and a tag mode other
    than replace, the tags after [mergeFlags] have no duplicates, and they
    are the persisted tags together with the tags of the flag. *)
Theorem mergeFlags_tags_merged (c : CLI) :
  tags c <> "" ->
  effectiveTagMode c <> ModeReplace ->
  NoDup (Tags (config (mergeFlags c)))
  /\ forall t : string,
       t ∈ Tags (config (mergeFlags c)) <->
       t ∈ Tags (config c) \/ t ∈ parseTags (tags c).
Proof.
  intros H Hm. rewrite (mergeFlags_Tags c H).
  apply String.eqb_neq in Hm. rewrite Hm. split.
  - apply rangeKeys_NoDup.
  - intros t. rewrite rangeKeys_elem_of, !markTags_lookup, lookup_empty.
    split; [|tauto].
    intros [[[x Hx]|Ht]|Ht]; [discriminate | tauto | tauto].
Qed.

(** C9, as stated, fails: in replace mode the tags of the flag are taken as
    they are, duplicates included; and without a tag flag the persisted tags
    stay as they are. *)
Lemma mergeFlags_tags_duplicates :
  ~ NoDup (Tags (config (mergeFlags (tagFlags oneTwoTags "a,a" "replace"))))
  /\ ~ NoDup (Tags (config (mergeFlags
                (noFlags (set_Tags ["a"; "a"] defaultConfig) "")))).
Proof.
  split; intros H; vm_compute in H;
    apply NoDup_cons in H as [Hn _]; apply Hn; constructor.
Qed.

(** ** Delivery *)

(** C10, as the code has it.  When nothing was read from standard input,
    [sendToDiscord] calls nothing, so no message is sent; it returns no error
    when the token and the channel are configured, and the error of the
    first missing one otherwise. *)
Theorem sendToDiscord_no_input (dg : Discord) (c : CLI) :
  strings.len (stdinData c) = 0 ->
  sendToDiscord dg c =
  ([], Done (if String.eqb (Token (config c)) ""
             then Some ErrTokenNotConfigured
             else if String.eqb (ChannelID (config c)) ""
                  then Some ErrChannelNotConfigured
                  else None)).
Proof.
  intros H. unfold sendToDiscord. rewrite H. simpl.
  destruct (String.eqb (Token (config c)) ""),
           (String.eqb (ChannelID (config c)) ""); reflexivity.
Qed.

(** C10, as stated, fails: with the default configuration, which has no
    token, empty input makes [sendToDiscord] return an error. *)
Lemma sendToDiscord_no_input_error :
  strings.len (stdinData (noFlags defaultConfig "")) = 0
  /\ sendToDiscord acceptingDiscord (noFlags defaultConfig "") =
     ([], Done (Some ErrTokenNotConfigured)).
Proof. split; reflexivity. Qed.

(** ** The properties on the inputs of the repository's tests *)

Example splitMessage_three_lines :
  splitMessage (noFlags (set_MaxMessageSize 5 configured) "") threeLines =
  Done [String.app "one" nl; String.app "two" nl; "three"].
Proof. vm_compute. reflexivity. Qed.

Example splitMessage_truncates :
  splitMessage
    (noFlags (set_MessageMode ModeTruncate (set_MaxMessageSize 5 configured))
       "")
    threeLines =
  Done [String.app "one" (String.app nl "t")].
Proof. vm_compute. reflexivity. Qed.

Example TrimSpace_example :
  strings.TrimSpace (String.app nl (String.app "  a b " nl)) = "a b".
Proof. vm_compute. reflexivity. Qed.

Example parseProperties_example :
  parseProperties " a : 1 ;b;c:2:3;d:4" = <["a" := "1"]> (<["d" := "4"]> ∅).
Proof. vm_compute. reflexivity. Qed.

Example mergeFlags_properties_example :
  Properties (config (mergeFlags
    (propertyFlags oneTwoProperties "two:22;three:3" "merge"))) =
  Some (<["one" := "1"]> (<["two" := "22"]> (<["three" := "3"]> ∅))).
Proof. vm_compute. reflexivity. Qed.

Lemma splitMessage_serialize_lossless_witness :
  MessageMode (config (noFlags (set_MaxMessageSize 5 configured) "")) =
    ModeSerialize
  /\ exists chunks : list string,
       splitMessage (noFlags (set_MaxMessageSize 5 configured) "") threeLines =
         Done chunks
       /\ joinChunks chunks = threeLines.
Proof.
  split; [reflexivity|].
  apply (splitMessage_serialize_lossless
           (noFlags (set_MaxMessageSize 5 configured) "") threeLines).
  reflexivity.
Defined.

Lemma splitMessage_nonpositive_size_witness :
  MaxMessageSize (config (noFlags (set_MaxMessageSize (-1) configured) "")) <= 0
  /\ splitMessage (noFlags (set_MaxMessageSize (-1) configured) "")
       (Repeat "a" 2100) =
     splitMessage
       (set_config
          (set_MaxMessageSize 2000
             (config (noFlags (set_MaxMessageSize (-1) configured) "")))
          (noFlags (set_MaxMessageSize (-1) configured) ""))
       (Repeat "a" 2100).
Proof.
  split; [simpl; lia|].
  apply (splitMessage_nonpositive_size
           (noFlags (set_MaxMessageSize (-1) configured) "") (Repeat "a" 2100)).
  simpl. lia.
Defined.

Lemma splitMessage_fits_witness :
  splitMessage (noFlags configured "") "hello" = Done ["hello"].
Proof.
  apply (splitMessage_fits (noFlags configured "") "hello").
  vm_compute. discriminate.
Defined.

Lemma splitMessage_other_mode_witness :
  splitMessage (noFlags (set_MessageMode "invalid_mode" configured) "")
    (Repeat "a" 4000) =
  splitMessage
    (set_config
       (set_MessageMode ModeTruncate
          (config (noFlags (set_MessageMode "invalid_mode" configured) "")))
       (noFlags (set_MessageMode "invalid_mode" configured) ""))
    (Repeat "a" 4000)
  /\ exists chunk : string,
       splitMessage (noFlags (set_MessageMode "invalid_mode" configured) "")
         (Repeat "a" 4000) = Done [chunk]
       /\ strings.len chunk <= 2000.
Proof.
  destruct (splitMessage_other_mode
              (noFlags (set_MessageMode "invalid_mode" configured) "")
              (Repeat "a" 4000)) as [Heq Hone].
  - vm_compute. discriminate.
  - vm_compute. discriminate.
  - split; [exact Heq|]. apply Hone; vm_compute; reflexivity.
Defined.

Lemma mergeFlags_properties_modes_witness :
  Properties (config (mergeFlags
    (propertyFlags oneTwoProperties "three:3;four:4" "replace"))) =
  Some (parseProperties "three:3;four:4")
  /\ exists m : gmap string string,
       Properties (config (mergeFlags
         (propertyFlags oneTwoProperties "two:22;three:3" "merge"))) = Some m
       /\ (forall k v, parseProperties "two:22;three:3" !! k = Some v ->
                       m !! k = Some v)
       /\ (forall k, parseProperties "two:22;three:3" !! k = None ->
                     m !! k = propertiesOf oneTwoProperties !! k).
Proof.
  split.
  - apply (mergeFlags_properties_modes
             (propertyFlags oneTwoProperties "three:3;four:4" "replace")).
    + simpl. discriminate.
    + reflexivity.
  - apply (mergeFlags_properties_modes
             (propertyFlags oneTwoProperties "two:22;three:3" "merge")).
    + simpl. discriminate.
    + vm_compute. discriminate.
Defined.

Lemma mergeFlags_tags_merged_witness :
  NoDup (Tags (config (mergeFlags (tagFlags oneTwoTags "two,three" "merge"))))
  /\ forall t : string,
       t ∈ Tags (config (mergeFlags (tagFlags oneTwoTags "two,three" "merge")))
       <-> t ∈ ["one"; "two"] \/ t ∈ parseTags "two,three".
Proof.
  apply (mergeFlags_tags_merged (tagFlags oneTwoTags "two,three" "merge")).
  - simpl. discriminate.
  - vm_compute. discriminate.
Defined.

Lemma sendToDiscord_no_input_witness :
  sendToDiscord acceptingDiscord (noFlags configured "") = ([], Done None).
Proof.
  apply (sendToDiscord_no_input acceptingDiscord (noFlags configured "")).
  reflexivity.
Defined.

(** ** More about the serialize loop: where it cuts *)

Lemma last_index_none_count (s : string) (c : ascii) :
  strings.last_index s c = None -> countByte c s = O.
Proof.
  induction s as [|a s IH]; simpl; [reflexivity|].
  destruct (strings.last_index s c); [discriminate|].
  destruct (Ascii.eqb a c); [discriminate|]. intros _. now rewrite IH.
Qed.

Lemma last_index_zero_count (s : string) (c : ascii) :
  strings.last_index s c = Some O ->
  countByte c (strings.drop_bytes 1 s) = O.
Proof.
  destruct s as [|a s]; simpl; [discriminate|].
  destruct (strings.last_index s c) eqn:E; [discriminate|]. intros _.
  destruct s; [reflexivity|]. now apply last_index_none_count.
Qed.

Lemma lastByte_cons (a : ascii) (s : string) :
  lastByte (String a s) =
  match lastByte s with
  | Some b => Some b
  | None => Some a
  end.
Proof.
  revert a. induction s as [|b s IH]; intros a; [reflexivity|].
  change (lastByte (String a (String b s))) with (lastByte (String b s)).
  rewrite IH. destruct (lastByte s); reflexivity.
Qed.

Lemma last_index_byte (s : string) (c : ascii) (i : nat) :
  strings.last_index s c = Some i ->
  lastByte (strings.take_bytes (S i) s) = Some c.
Proof.
  revert i. induction s as [|a s IH]; intros i; [discriminate|].
  cbn [strings.last_index].
  destruct (strings.last_index s c) as [j|] eqn:E.
  - intros [= <-].
    change (strings.take_bytes (S (S j)) (String a s))
      with (String a (strings.take_bytes (S j) s)).
    rewrite lastByte_cons, (IH j eq_refl). reflexivity.
  - destruct (Ascii.eqb_spec a c) as [->|]; [|discriminate].
    intros [= <-]. destruct s; reflexivity.
Qed.

Lemma take_take_bytes (n m : nat) (s : string) :
  (n <= m)%nat ->
  strings.take_bytes n (strings.take_bytes m s) = strings.take_bytes n s.
Proof.
  revert m s. induction n as [|n IH]; intros [|m] [|a s] H; simpl;
    try reflexivity; try lia.
  rewrite IH; [reflexivity | lia].
Qed.

Lemma countByte_drop_le (c : ascii) (n : nat) (s : string) :
  (countByte c (strings.drop_bytes n s) <= countByte c s)%nat.
Proof.
  revert s. induction n as [|n IH]; intros [|a s]; simpl; try lia.
  specialize (IH s). lia.
Qed.

(** A cut before the end of [remaining] is a cut at a line, or a cut at the
    limit for want of a line feed. *)
Lemma cutPoint_at_line (maxSize : Z) (remaining : string) :
  0 < maxSize ->
  cutPoint maxSize remaining < strings.len remaining ->
  cutAtLine maxSize
    (strings.take_bytes (Z.to_nat (cutPoint maxSize remaining)) remaining).
Proof.
  intros Hm. unfold cutPoint.
  destruct (Z.ltb_spec (strings.len remaining) maxSize) as [H1|H1].
  { rewrite Z.ltb_irrefl. lia. }
  destruct (Z.ltb_spec maxSize (strings.len remaining)) as [H2|H2]; [|lia].
  set (window := strings.take_bytes (Z.to_nat maxSize) remaining).
  assert (strings.len window = maxSize) as Hw
    by (apply len_take_bytes; lia).
  unfold strings.LastIndex.
  destruct (strings.last_index window "010"%char) as [i|] eqn:E.
  - pose proof (last_index_lt _ _ _ E) as Hi.
    destruct (Z.ltb_spec 0 (Z.of_nat i)) as [Hp|Hp]; intros _.
    + left. replace (Z.to_nat (Z.of_nat i + 1)) with (S i) by lia.
      rewrite <- (take_take_bytes (S i) (Z.to_nat maxSize))
        by (unfold strings.len in Hw; lia).
      now apply last_index_byte.
    + right. split; [exact Hw|].
      assert (i = O) as -> by lia. now apply last_index_zero_count.
  - destruct (Z.ltb_spec 0 (-1)); [lia|].
    intros _. right. split; [exact Hw|].
    pose proof (countByte_drop_le "010"%char 1 window) as Hc.
    rewrite (last_index_none_count _ _ E) in Hc. fold window. lia.
Qed.

Lemma joinChunks_nonempty (maxSize : Z) (chunks : list string) :
  Forall (fun ch => 0 < strings.len ch <= maxSize) chunks ->
  chunks <> [] -> 0 < strings.len (joinChunks chunks).
Proof.
  intros Hall Hne. destruct chunks as [|ch chunks]; [congruence|].
  apply Forall_cons in Hall as [Hch _]. simpl. rewrite len_app.
  pose proof (len_nonneg (joinChunks chunks)). lia.
Qed.

(** The loop, with where it cuts: every chunk but the last one it appends
    is cut at a line, or at the limit for want of a line feed. *)
Lemma serializeLoop_cuts (fuel : nat) (maxSize : Z) :
  0 < maxSize ->
  forall (messages : list string) (remaining : string),
    (String.length remaining <= fuel)%nat ->
    exists chunks : list string,
      serializeLoop fuel maxSize messages remaining = Done (messages ++ chunks)
      /\ joinChunks chunks = remaining
      /\ Forall (fun ch => 0 < strings.len ch <= maxSize) chunks
      /\ forall (i : nat) (ch : string),
           chunks !! i = Some ch -> (S i < length chunks)%nat ->
           cutAtLine maxSize ch.
Proof.
  intros Hm. induction fuel as [|fuel IH]; intros messages remaining Hf.
  - exists []. rewrite serializeLoop_empty by (unfold strings.len; lia).
    rewrite app_nil_r. destruct remaining; [|simpl in Hf; lia].
    repeat split; [constructor|]. intros i ch H. discriminate.
  - destruct (Z.eq_dec (strings.len remaining) 0) as [H0|H0].
    + exists []. rewrite serializeLoop_empty by assumption.
      rewrite app_nil_r. destruct remaining; [|unfold strings.len in H0;
        simpl in H0; lia].
      repeat split; [constructor|]. intros i ch H. discriminate.
    + pose proof (len_nonneg remaining) as Hn.
      assert (0 < strings.len remaining) as Hr by lia.
      rewrite serializeLoop_step by assumption.
      pose proof (cutPoint_range maxSize remaining Hm Hr) as [Hc Hc'].
      pose proof (cutPoint_at_line maxSize remaining Hm) as Hline.
      set (k := cutPoint maxSize remaining) in *.
      destruct (IH (messages ++ [strings.take_bytes (Z.to_nat k) remaining])
                  (strings.drop_bytes (Z.to_nat k) remaining))
        as (chunks & Hrun & Hjoin & Hall & Hcut).
      { rewrite length_drop_bytes. unfold strings.len in *. lia. }
      exists (strings.take_bytes (Z.to_nat k) remaining :: chunks).
      split; [|split; [|split]].
      * rewrite Hrun, <- app_assoc. reflexivity.
      * simpl. rewrite Hjoin. apply take_drop_bytes.
      * constructor; [|assumption]. rewrite len_take_bytes by lia. lia.
      * intros [|i] ch Hi Hlen; simpl in Hi, Hlen.
        -- injection Hi as <-. apply Hline.
           assert (chunks <> []) as Hne by (destruct chunks; simpl in *;
             [lia | discriminate]).
           pose proof (joinChunks_nonempty maxSize chunks Hall Hne) as Hj.
           rewrite Hjoin in Hj. unfold strings.len in Hj.
           rewrite length_drop_bytes in Hj. unfold strings.len. lia.
        -- apply (Hcut i ch Hi). lia.
Qed.

(** The length of the joined chunks, between the number of chunks and that
    number times the limit. *)
Lemma joinChunks_len_bounds (maxSize : Z) (chunks : list string) :
  Forall (fun ch => 0 < strings.len ch <= maxSize) chunks ->
  Z.of_nat (length chunks) <= strings.len (joinChunks chunks)
  /\ strings.len (joinChunks chunks) <= Z.of_nat (length chunks) * maxSize.
Proof.
  induction 1 as [|ch chunks Hch _ IH]; simpl joinChunks.
  - unfold strings.len. simpl. lia.
  - rewrite len_app. simpl length. lia.
Qed.

Lemma countByte_app (c : ascii) (s t : string) :
  countByte c (String.app s t) = (countByte c s + countByte c t)%nat.
Proof.
  induction s as [|a s IH]; rewrite ?app_String, ?app_empty; simpl;
    [reflexivity|].
  rewrite IH. lia.
Qed.

Lemma countByte_chunk (c : ascii) (chunks : list string) (i : nat)
    (ch : string) :
  chunks !! i = Some ch ->
  (countByte c ch <= countByte c (joinChunks chunks))%nat.
Proof.
  revert i. induction chunks as [|x chunks IH]; intros [|i] H; simpl in H;
    try discriminate; simpl joinChunks; rewrite countByte_app.
  - injection H as ->. lia.
  - specialize (IH i H). lia.
Qed.

Lemma lastByte_count (c : ascii) (s : string) :
  lastByte s = Some c -> (1 <= countByte c s)%nat.
Proof.
  induction s as [|a s IH]; [discriminate|].
  rewrite lastByte_cons. simpl countByte.
  destruct (lastByte s) as [b|].
  - intros H. specialize (IH H). lia.
  - intros [= ->]. rewrite Ascii.eqb_refl. lia.
Qed.

(** [splitMessage] in serialize mode, with everything the loop gives. *)
Lemma splitMessage_serialize_cuts (c : CLI) (content : string) :
  MessageMode (config c) = ModeSerialize ->
  exists chunks : list string,
    splitMessage c content = Done chunks
    /\ chunks <> []
    /\ joinChunks chunks = content
    /\ Forall (fun ch => strings.len ch <= getEffectiveMaxMessageSize c) chunks
    /\ (content <> "" -> Forall (fun ch => 0 < strings.len ch) chunks)
    /\ forall (i : nat) (ch : string),
         chunks !! i = Some ch -> (S i < length chunks)%nat ->
         cutAtLine (getEffectiveMaxMessageSize c) ch.
Proof.
  intros Hs.
  pose proof (getEffectiveMaxMessageSize_pos c) as Hp.
  destruct (Z.le_gt_cases (strings.len content) (getEffectiveMaxMessageSize c))
    as [Hle|Hgt].
  - exists [content]. rewrite splitMessage_short by assumption.
    split; [reflexivity|]. split; [discriminate|].
    split; [simpl; apply app_empty_r|].
    split; [constructor; [assumption | constructor]|].
    split.
    + intros Hne. constructor; [|constructor].
      destruct content; [congruence|]. unfold strings.len. simpl. lia.
    + intros i ch _ Hi. simpl in Hi. lia.
  - rewrite splitMessage_loop by assumption.
    destruct (serializeLoop_cuts (String.length content)
                (getEffectiveMaxMessageSize c) Hp [] content (Nat.le_refl _))
      as (chunks & Hrun & Hjoin & Hall & Hcut).
    exists chunks. split; [exact Hrun|].
    split.
    { intros ->. simpl in Hjoin. subst content.
      pose proof (getEffectiveMaxMessageSize_pos c).
      unfold strings.len in Hgt. simpl in Hgt. lia. }
    split; [exact Hjoin|].
    split; [eapply Forall_impl; [exact Hall|]; simpl; intros; lia|].
    split; [intros _; eapply Forall_impl; [exact Hall|]; simpl; intros; lia|].
    exact Hcut.
Qed.

(** ** Segmentation: more properties *)

(** When the content is longer than the effective limit and the mode is not
    "serialize", [splitMessage] returns one chunk: the first bytes of the
    content, exactly as many as the limit.  The rest of the content is not
    sent. *)
Theorem splitMessage_truncate_prefix (c : CLI) (content : string) :
  getEffectiveMaxMessageSize c < strings.len content ->
  MessageMode (config c) <> ModeSerialize ->
  exists chunk rest : string,
    splitMessage c content = Done [chunk]
    /\ content = String.app chunk rest
    /\ strings.len chunk = getEffectiveMaxMessageSize c
    /\ 0 < strings.len rest.
Proof.
  intros Hgt Hs. apply String.eqb_neq in Hs.
  pose proof (getEffectiveMaxMessageSize_pos c) as Hp.
  exists (strings.take_bytes (Z.to_nat (getEffectiveMaxMessageSize c)) content),
         (strings.drop_bytes (Z.to_nat (getEffectiveMaxMessageSize c)) content).
  split; [now apply splitMessage_cut|].
  split; [now rewrite take_drop_bytes|].
  split; [apply len_take_bytes; lia|].
  unfold strings.len in *. rewrite length_drop_bytes. lia.
Qed.

Lemma splitMessage_truncate_prefix_witness :
  exists chunk rest : string,
    splitMessage
      (noFlags (set_MessageMode ModeTruncate (set_MaxMessageSize 5 configured))
         "") threeLines = Done [chunk]
    /\ threeLines = String.app chunk rest
    /\ strings.len chunk = 5
    /\ 0 < strings.len rest.
Proof.
  apply (splitMessage_truncate_prefix
           (noFlags
              (set_MessageMode ModeTruncate (set_MaxMessageSize 5 configured))
              "") threeLines).
  - vm_compute. reflexivity.
  - vm_compute. discriminate.
Defined.

(** Content that is not empty never gives an empty chunk, in any mode and
    for any configured size: there is at least one chunk and each has at
    least one byte. *)
Theorem splitMessage_nonempty_chunks (c : CLI) (content : string) :
  content <> "" ->
  exists chunks : list string,
    splitMessage c content = Done chunks
    /\ chunks <> []
    /\ Forall (fun ch => 0 < strings.len ch) chunks.
Proof.
  intros Hne.
  pose proof (getEffectiveMaxMessageSize_pos c) as Hp.
  assert (0 < strings.len content) as Hl.
  { destruct content; [congruence|]. unfold strings.len. simpl. lia. }
  destruct (String.eqb (MessageMode (config c)) ModeSerialize) eqn:Em.
  - apply String.eqb_eq in Em.
    destruct (splitMessage_serialize_cuts c content Em)
      as (chunks & Hrun & Hnil & _ & _ & Hpos & _).
    exists chunks. split; [exact Hrun|]. split; [exact Hnil|]. now apply Hpos.
  - destruct (Z.le_gt_cases (strings.len content)
                (getEffectiveMaxMessageSize c)) as [Hle|Hgt].
    + exists [content]. split; [now apply splitMessage_short|].
      split; [discriminate|]. constructor; [assumption | constructor].
    + rewrite splitMessage_cut by assumption.
      eexists. split; [reflexivity|]. split; [discriminate|].
      constructor; [|constructor]. rewrite len_take_bytes; lia.
Qed.

Lemma splitMessage_nonempty_chunks_witness :
  exists chunks : list string,
    splitMessage (noFlags (set_MaxMessageSize 5 configured) "") threeLines =
      Done chunks
    /\ chunks <> []
    /\ Forall (fun ch => 0 < strings.len ch) chunks.
Proof.
  apply (splitMessage_nonempty_chunks
           (noFlags (set_MaxMessageSize 5 configured) "") threeLines).
  vm_compute. discriminate.
Defined.

(** In serialize mode the number of chunks is at least the length of the
    content divided by the effective limit, and at most the length of the
    content (one chunk for empty content). *)
Theorem splitMessage_serialize_count (c : CLI) (content : string) :
  MessageMode (config c) = ModeSerialize ->
  exists chunks : list string,
    splitMessage c content = Done chunks
    /\ strings.len content <=
       Z.of_nat (length chunks) * getEffectiveMaxMessageSize c
    /\ Z.of_nat (length chunks) <= Z.max 1 (strings.len content).
Proof.
  intros Hs.
  destruct (splitMessage_serialize_cuts c content Hs)
    as (chunks & Hrun & Hnil & Hjoin & Hle & Hpos & _).
  exists chunks. split; [exact Hrun|].
  destruct content as [|a content].
  - assert (length chunks = 1%nat) as ->.
    { rewrite splitMessage_short in Hrun.
      - injection Hrun as <-. reflexivity.
      - pose proof (getEffectiveMaxMessageSize_pos c).
        unfold strings.len. simpl. lia. }
    pose proof (getEffectiveMaxMessageSize_pos c).
    unfold strings.len. simpl. lia.
  - assert (Forall (fun ch => 0 < strings.len ch <=
                              getEffectiveMaxMessageSize c) chunks) as Hall.
    { specialize (Hpos ltac:(discriminate)).
      apply Forall_forall. intros ch Hin. split.
      - now apply (proj1 (Forall_forall _ _) Hpos).
      - now apply (proj1 (Forall_forall _ _) Hle). }
    destruct (joinChunks_len_bounds _ _ Hall) as [Hlo Hhi].
    rewrite Hjoin in Hlo, Hhi. lia.
Qed.

Lemma splitMessage_serialize_count_witness :
  exists chunks : list string,
    splitMessage (noFlags (set_MaxMessageSize 5 configured) "") threeLines =
      Done chunks
    /\ strings.len threeLines <= Z.of_nat (length chunks) * 5
    /\ Z.of_nat (length chunks) <= Z.max 1 (strings.len threeLines).
Proof.
  apply (splitMessage_serialize_count
           (noFlags (set_MaxMessageSize 5 configured) "") threeLines).
  reflexivity.
Defined.

(** In serialize mode every chunk but the last ends with a line feed, or
    else is exactly as long as the effective limit and has no line feed
    after its first byte: a line is cut only when it does not fit. *)
Theorem splitMessage_serialize_lines (c : CLI) (content : string) :
  MessageMode (config c) = ModeSerialize ->
  exists chunks : list string,
    splitMessage c content = Done chunks
    /\ forall (i : nat) (ch : string),
         chunks !! i = Some ch -> (S i < length chunks)%nat ->
         cutAtLine (getEffectiveMaxMessageSize c) ch.
Proof.
  intros Hs.
  destruct (splitMessage_serialize_cuts c content Hs)
    as (chunks & Hrun & _ & _ & _ & _ & Hcut).
  exists chunks. split; assumption.
Qed.

Lemma splitMessage_serialize_lines_witness :
  exists chunks : list string,
    splitMessage (noFlags (set_MaxMessageSize 5 configured) "") threeLines =
      Done chunks
    /\ forall (i : nat) (ch : string),
         chunks !! i = Some ch -> (S i < length chunks)%nat ->
         cutAtLine 5 ch.
Proof.
  apply (splitMessage_serialize_lines
           (noFlags (set_MaxMessageSize 5 configured) "") threeLines).
  reflexivity.
Defined.

(** In serialize mode, content without any line feed is cut into pieces of
    exactly the effective limit, the last piece apart. *)
Theorem splitMessage_serialize_fixed_size (c : CLI) (content : string) :
  MessageMode (config c) = ModeSerialize ->
  countByte "010"%char content = O ->
  exists chunks : list string,
    splitMessage c content = Done chunks
    /\ forall (i : nat) (ch : string),
         chunks !! i = Some ch -> (S i < length chunks)%nat ->
         strings.len ch = getEffectiveMaxMessageSize c.
Proof.
  intros Hs Hnl.
  destruct (splitMessage_serialize_cuts c content Hs)
    as (chunks & Hrun & _ & Hjoin & _ & _ & Hcut).
  exists chunks. split; [exact Hrun|].
  intros i ch Hi Hlen. destruct (Hcut i ch Hi Hlen) as [Hlast|[Hfull _]].
  - apply lastByte_count in Hlast.
    pose proof (countByte_chunk "010"%char chunks i ch Hi) as Hc.
    rewrite Hjoin, Hnl in Hc. lia.
  - exact Hfull.
Qed.

Lemma splitMessage_serialize_fixed_size_witness :
  exists chunks : list string,
    splitMessage (noFlags (set_MaxMessageSize 5 configured) "")
      "abcdefghijkl" = Done chunks
    /\ forall (i : nat) (ch : string),
         chunks !! i = Some ch -> (S i < length chunks)%nat ->
         strings.len ch = 5.
Proof.
  apply (splitMessage_serialize_fixed_size
           (noFlags (set_MaxMessageSize 5 configured) "") "abcdefghijkl").
  - reflexivity.
  - reflexivity.
Defined.

(** ** Trimming, tags and property strings: more properties *)

(** What [trim_front] returns is the end of its argument. *)
Lemma trim_front_suffix (back : bool) (s : string) :
  exists p : string, s = String.app p (strings.trim_front back s).
Proof.
  assert (forall (n : nat) (s : string), (String.length s <= n)%nat ->
            exists p, s = String.app p (strings.trim_front back s)) as H.
  { clear s. induction n as [|n IH]; intros s Hn.
    - destruct s; [|simpl in Hn; lia]. now exists "".
    - destruct s as [|c1 s1]; [now exists ""|].
      simpl in Hn. cbn [strings.trim_front].
      destruct (strings.asciiSpace c1).
      { destruct (IH s1 ltac:(lia)) as [p Hp].
        exists (String c1 p). rewrite app_String. congruence. }
      destruct s1 as [|c2 s2]; [now exists ""|].
      simpl in Hn.
      destruct (if back then strings.space2 c2 c1 else strings.space2 c1 c2).
      { destruct (IH s2 ltac:(lia)) as [p Hp].
        exists (String c1 (String c2 p)). rewrite !app_String. congruence. }
      destruct s2 as [|c3 s3]; [now exists ""|].
      simpl in Hn.
      destruct (if back then strings.space3 c3 c2 c1
                else strings.space3 c1 c2 c3).
      { destruct (IH s3 ltac:(lia)) as [p Hp].
        exists (String c1 (String c2 (String c3 p))).
        rewrite !app_String. congruence. }
      now exists "". }
  exact (H (String.length s) s (Nat.le_refl _)).
Qed.

(** What [trim_front] returns does not begin with an ASCII space. *)
Lemma trim_front_head (back : bool) (s : string) :
  isAsciiSpace (firstByte (strings.trim_front back s)) = false.
Proof.
  assert (forall (n : nat) (s : string), (String.length s <= n)%nat ->
            isAsciiSpace (firstByte (strings.trim_front back s)) = false)
    as H.
  { clear s. induction n as [|n IH]; intros s Hn.
    - destruct s; [reflexivity | simpl in Hn; lia].
    - destruct s as [|c1 s1]; [reflexivity|].
      simpl in Hn. cbn [strings.trim_front].
      destruct (strings.asciiSpace c1) eqn:E1; [apply IH; lia|].
      destruct s1 as [|c2 s2]; [exact E1|].
      simpl in Hn.
      destruct (if back then strings.space2 c2 c1 else strings.space2 c1 c2);
        [apply IH; lia|].
      destruct s2 as [|c3 s3]; [exact E1|].
      simpl in Hn.
      destruct (if back then strings.space3 c3 c2 c1
                else strings.space3 c1 c2 c3); [apply IH; lia | exact E1]. }
  exact (H (String.length s) s (Nat.le_refl _)).
Qed.

Lemma firstByte_rev_app (s1 s2 : string) :
  firstByte (String.rev_app s1 s2) =
  match lastByte s1 with
  | Some a => Some a
  | None => firstByte s2
  end.
Proof.
  revert s2. induction s1 as [|a s1 IH]; intros s2; [reflexivity|].
  cbn [String.rev_app]. rewrite IH, lastByte_cons.
  destruct (lastByte s1); reflexivity.
Qed.

Lemma lastByte_rev_app (s1 s2 : string) :
  lastByte (String.rev_app s1 s2) =
  match lastByte s2 with
  | Some b => Some b
  | None => firstByte s1
  end.
Proof.
  revert s2. induction s1 as [|a s1 IH]; intros s2.
  - simpl. destruct (lastByte s2); reflexivity.
  - cbn [String.rev_app]. rewrite IH, lastByte_cons.
    destruct (lastByte s2); reflexivity.
Qed.

Lemma countByte_rev_app (c : ascii) (s1 s2 : string) :
  countByte c (String.rev_app s1 s2) = (countByte c s1 + countByte c s2)%nat.
Proof.
  revert s2. induction s1 as [|a s1 IH]; intros s2; [reflexivity|].
  cbn [String.rev_app]. rewrite IH. simpl. lia.
Qed.

Lemma lastByte_app (p t : string) :
  lastByte (String.app p t) =
  match lastByte t with
  | Some b => Some b
  | None => lastByte p
  end.
Proof.
  induction p as [|a p IH]; rewrite ?app_String, ?app_empty.
  - destruct (lastByte t); reflexivity.
  - rewrite !lastByte_cons, IH. destruct (lastByte t); reflexivity.
Qed.

(** [TrimSpace] leaves no ASCII space at either end. *)
Lemma TrimSpace_ends (s : string) :
  isAsciiSpace (firstByte (strings.TrimSpace s)) = false
  /\ isAsciiSpace (lastByte (strings.TrimSpace s)) = false.
Proof.
  unfold strings.TrimSpace, String.rev.
  set (X := strings.trim_front false s).
  set (Y := strings.trim_front true (String.rev_app X "")).
  split.
  - rewrite firstByte_rev_app.
    destruct (lastByte Y) as [b|] eqn:Eb; [|reflexivity].
    destruct (trim_front_suffix true (String.rev_app X "")) as [p Hp].
    fold Y in Hp.
    assert (lastByte (String.rev_app X "") = Some b) as Hl
      by (rewrite Hp, lastByte_app, Eb; reflexivity).
    rewrite lastByte_rev_app in Hl. simpl in Hl.
    pose proof (trim_front_head false s) as Hh. fold X in Hh.
    rewrite Hl in Hh. exact Hh.
  - rewrite lastByte_rev_app. simpl.
    apply (trim_front_head true (String.rev_app X "")).
Qed.

(** [TrimSpace] adds no byte: it has no more of a byte than its argument. *)
Lemma countByte_TrimSpace (c : ascii) (s : string) :
  (countByte c (strings.TrimSpace s) <= countByte c s)%nat.
Proof.
  unfold strings.TrimSpace, String.rev.
  set (X := strings.trim_front false s).
  destruct (trim_front_suffix false s) as [p Hp]. fold X in Hp.
  destruct (trim_front_suffix true (String.rev_app X "")) as [q Hq].
  set (Y := strings.trim_front true (String.rev_app X "")) in *.
  pose proof (f_equal (countByte c) Hp) as H1.
  pose proof (f_equal (countByte c) Hq) as H2.
  rewrite countByte_app in H1, H2.
  rewrite countByte_rev_app in H2 |- *. simpl in *. lia.
Qed.

(** A tag string that is not empty gives one tag more than it has commas:
    empty tags, as between two commas, are kept. *)
Theorem parseTags_count (tagStr : string) :
  tagStr <> "" ->
  length (parseTags tagStr) = S (countByte ","%char tagStr).
Proof.
  intros H. unfold parseTags. apply String.eqb_neq in H. rewrite H.
  rewrite length_map. apply length_Split.
Qed.

Lemma parseTags_count_witness :
  length (parseTags "a,,b") = S (countByte ","%char "a,,b").
Proof. apply (parseTags_count "a,,b"). discriminate. Defined.

(** No tag that [parseTags] returns begins or ends with a tab, a line feed,
    a vertical tab, a form feed, a carriage return or a space. *)
Theorem parseTags_trimmed (tagStr t : string) :
  t ∈ parseTags tagStr ->
  isAsciiSpace (firstByte t) = false /\ isAsciiSpace (lastByte t) = false.
Proof.
  unfold parseTags. destruct (String.eqb tagStr "").
  - intros H. apply elem_of_nil in H. destruct H.
  - intros H. apply list_elem_of_fmap in H as (p & -> & _).
    apply TrimSpace_ends.
Qed.

Lemma parseTags_trimmed_witness :
  isAsciiSpace (firstByte "b c") = false
  /\ isAsciiSpace (lastByte "b c") = false.
Proof.
  apply (parseTags_trimmed " a ,  b c " "b c").
  vm_compute. apply list_elem_of_further, list_elem_of_here.
Defined.

Lemma Split_count_zero (c sep : ascii) (s : string) :
  countByte c s = O ->
  Forall (fun p => countByte c p = O) (strings.Split s sep).
Proof.
  induction s as [|a s IH]; simpl.
  - intros _. constructor; [reflexivity | constructor].
  - intros H. assert (Ascii.eqb a c = false) as Ea
      by (destruct (Ascii.eqb a c); [simpl in H; lia | reflexivity]).
    rewrite Ea in H. simpl in H. specialize (IH H).
    destruct (Ascii.eqb a sep).
    + constructor; [reflexivity | exact IH].
    + destruct (strings.Split s sep) as [|x xs].
      * constructor; [simpl; rewrite Ea; reflexivity | constructor].
      * apply Forall_cons in IH as [Hx Hxs].
        constructor; [simpl; rewrite Ea, Hx; reflexivity | exact Hxs].
Qed.

Lemma parsePair_no_colon (props : gmap string string) (pair : string) :
  countByte ":"%char pair = O -> parsePair props pair = props.
Proof.
  intros H. rewrite parsePair_one_colon. unfold parsePairOneColon.
  pose proof (countByte_TrimSpace ":"%char pair) as Hc.
  destruct (Nat.eqb_spec (countByte ":"%char (strings.TrimSpace pair)) 1);
    [lia | reflexivity].
Qed.

(** A property string without any colon gives no property (and no error). *)
Theorem parseProperties_no_colon (propStr : string) :
  countByte ":"%char propStr = O -> parseProperties propStr = ∅.
Proof.
  intros H. unfold parseProperties.
  destruct (String.eqb propStr ""); [reflexivity|].
  pose proof (Split_count_zero ":"%char ";"%char propStr H) as Hall.
  induction Hall as [|p ps Hp _ IH]; simpl; [reflexivity|].
  rewrite parsePair_no_colon by exact Hp. exact IH.
Qed.

Lemma parseProperties_no_colon_witness : parseProperties "a=1;b=2" = ∅.
Proof. apply (parseProperties_no_colon "a=1;b=2"). reflexivity. Defined.

Lemma Split_app (s t : string) (sep : ascii) :
  strings.Split (String.app s (String sep t)) sep =
  strings.Split s sep ++ strings.Split t sep.
Proof.
  induction s as [|a s IH]; rewrite ?app_String, ?app_empty.
  - simpl. rewrite Ascii.eqb_refl. reflexivity.
  - cbn [strings.Split]. rewrite IH.
    destruct (Ascii.eqb a sep); [reflexivity|].
    pose proof (length_Split s sep) as Hl.
    destruct (strings.Split s sep) as [|x xs]; [simpl in Hl; lia|].
    reflexivity.
Qed.

Lemma app_sep_nonempty (s t : string) (sep : ascii) :
  String.eqb (String.app s (String sep t)) "" = false.
Proof. destruct s; reflexivity. Qed.

(** A pair added at the end of a property string is handled after all the
    pairs before it. *)
Lemma parseProperties_append (s p : string) :
  countByte ";"%char p = O ->
  parseProperties (String.app s (String ";"%char p)) =
  parsePair (parseProperties s) p.
Proof.
  intros Hp. unfold parseProperties.
  rewrite app_sep_nonempty, Split_app, foldl_app, (Split_no_sep p) by exact Hp.
  simpl. destruct s as [|a s]; [|reflexivity].
  simpl. rewrite (parsePair_no_colon ∅ "") by reflexivity. reflexivity.
Qed.

(** A pair with one colon, added after a semicolon at the end of a property
    string, sets its key to its value, over any earlier pair with the same
    key, and leaves the other keys as they were: the last pair wins. *)
Theorem parseProperties_last_wins (s p : string) :
  countByte ";"%char p = O ->
  countByte ":"%char (strings.TrimSpace p) = 1%nat ->
  parseProperties (String.app s (String ";"%char p)) =
  <[strings.TrimSpace (beforeFirst ":"%char (strings.TrimSpace p)) :=
      strings.TrimSpace (afterFirst ":"%char (strings.TrimSpace p))]>
    (parseProperties s).
Proof.
  intros Hs Hc. rewrite parseProperties_append by exact Hs.
  rewrite parsePair_one_colon. unfold parsePairOneColon.
  rewrite Hc. reflexivity.
Qed.

Lemma parseProperties_last_wins_witness :
  parseProperties (String.app "two:2;one:1" (String ";"%char " two : 22 ")) =
  <["two" := "22"]> (parseProperties "two:2;one:1").
Proof.
  apply (parseProperties_last_wins "two:2;one:1" " two : 22 ");
    vm_compute; reflexivity.
Defined.

(** ** Merging the flags: more properties *)

(** The tag part assigns at most the tags, the property part at most the
    properties. *)
Lemma mergeTags_frame (c : CLI) (g : Config) :
  mergeTags c g = set_Tags (Tags (mergeTags c g)) g.
Proof.
  unfold mergeTags.
  destruct (nonEmpty (tags c)), (String.eqb (TagMode g) ModeReplace);
    destruct g; reflexivity.
Qed.

Lemma mergeProperties_frame (c : CLI) (g : Config) :
  mergeProperties c g = set_Properties (Properties (mergeProperties c g)) g.
Proof.
  unfold mergeProperties.
  destruct (nonEmpty (properties c)),
           (String.eqb (PropertyMode g) ModeReplace); destruct g; reflexivity.
Qed.

(** A field that is neither the tags nor the properties is, after
    [mergeFlags], what the first part left. *)
Lemma mergeFlags_scalar {A : Type} (P : Config -> A) (c : CLI) :
  (forall ts g, P (set_Tags ts g) = P g) ->
  (forall ps g, P (set_Properties ps g) = P g) ->
  P (config (mergeFlags c)) = P (mergeScalars c).
Proof.
  intros Ht Hp. unfold mergeFlags. cbn [config set_config].
  rewrite mergeProperties_frame, Hp, mergeTags_frame, Ht. reflexivity.
Qed.

Lemma mergeScalars_strings (c : CLI) :
  Token (mergeScalars c) =
    (if nonEmpty (token c) then token c else Token (config c))
  /\ ChannelID (mergeScalars c) =
    (if nonEmpty (channelID c) then channelID c else ChannelID (config c))
  /\ ServerID (mergeScalars c) =
    (if nonEmpty (serverID c) then serverID c else ServerID (config c))
  /\ Username (mergeScalars c) =
    (if nonEmpty (username c) then username c else Username (config c))
  /\ MessageMode (mergeScalars c) =
    (if nonEmpty (messageMode c) then messageMode c
     else MessageMode (config c))
  /\ ThreadName (mergeScalars c) =
    (if nonEmpty (threadName c) then threadName c else ThreadName (config c)).
Proof.
  repeat split.
  - read_field Token.
  - read_field ChannelID.
  - read_field ServerID.
  - read_field Username.
  - read_field MessageMode.
  - read_field ThreadName.
Qed.

Lemma mergeScalars_MaxMessageSize (c : CLI) :
  MaxMessageSize (mergeScalars c) =
  if maxMessageSize c =? DefaultMaxMessageSize then MaxMessageSize (config c)
  else maxMessageSize c.
Proof.
  read_field MaxMessageSize.
  destruct (maxMessageSize c =? DefaultMaxMessageSize); reflexivity.
Qed.

(** After [mergeFlags] each of the token, the channel, the server, the user
    name, the thread name, the message mode, the tag mode and the property
    mode is the flag when the flag is not empty, and the persisted value
    otherwise (an empty persisted value stays empty). *)
Theorem mergeFlags_string_fields (c : CLI) :
  let g := config (mergeFlags c) in
  Token g = (if nonEmpty (token c) then token c else Token (config c))
  /\ ChannelID g =
     (if nonEmpty (channelID c) then channelID c else ChannelID (config c))
  /\ ServerID g =
     (if nonEmpty (serverID c) then serverID c else ServerID (config c))
  /\ Username g =
     (if nonEmpty (username c) then username c else Username (config c))
  /\ ThreadName g =
     (if nonEmpty (threadName c) then threadName c else ThreadName (config c))
  /\ MessageMode g =
     (if nonEmpty (messageMode c) then messageMode c
      else MessageMode (config c))
  /\ TagMode g =
     (if nonEmpty (tagMode c) then tagMode c else TagMode (config c))
  /\ PropertyMode g =
     (if nonEmpty (propertyMode c) then propertyMode c
      else PropertyMode (config c)).
Proof.
  cbv zeta.
  destruct (mergeScalars_strings c) as (H1 & H2 & H3 & H4 & H5 & H6).
  rewrite (mergeFlags_scalar Token), (mergeFlags_scalar ChannelID),
    (mergeFlags_scalar ServerID), (mergeFlags_scalar Username),
    (mergeFlags_scalar ThreadName), (mergeFlags_scalar MessageMode),
    (mergeFlags_scalar TagMode), (mergeFlags_scalar PropertyMode)
    by reflexivity.
  rewrite H1, H2, H3, H4, H5, H6, mergeScalars_TagMode,
    mergeScalars_PropertyMode.
  repeat split.
Qed.

(** The size flag replaces the persisted size exactly when it is not 2000:
    a persisted size cannot be set back to 2000 by the flag, and any other
    value of the flag, 0 and negative ones included, is taken. *)
Theorem mergeFlags_max_size (c : CLI) :
  MaxMessageSize (config (mergeFlags c)) =
  if maxMessageSize c =? 2000 then MaxMessageSize (config c)
  else maxMessageSize c.
Proof.
  rewrite (mergeFlags_scalar MaxMessageSize) by reflexivity.
  apply mergeScalars_MaxMessageSize.
Qed.

(** The settings after [mergeFlags] when no flag is given. *)
Lemma noFlags_config (g : Config) (stdin : string) :
  config (mergeFlags (noFlags g stdin)) =
  set_MessageMode ModeSerialize
    (set_PropertyMode ModeMerge (set_TagMode ModeMerge g)).
Proof. destruct g. reflexivity. Qed.

(** Run without any flag, [mergeFlags] leaves the persisted settings as
    they are except for the three modes: the message mode becomes
    "serialize" and the tag and property modes become "merge", whatever was
    persisted, because the defaults of these flags are not empty. *)
Theorem mergeFlags_no_flags (g : Config) (stdin : string) :
  config (mergeFlags (noFlags g stdin)) =
  set_MessageMode ModeSerialize
    (set_PropertyMode ModeMerge (set_TagMode ModeMerge g)).
Proof. exact (noFlags_config g stdin). Qed.

(** In replace mode, with a tag flag that is not empty, the tags become the
    parsed flag as it is: in its order, with its duplicates and its empty
    tags. *)
Theorem mergeFlags_tags_replace (c : CLI) :
  tags c <> "" ->
  effectiveTagMode c = ModeReplace ->
  Tags (config (mergeFlags c)) = parseTags (tags c).
Proof.
  intros H Hm. rewrite (mergeFlags_Tags c H), Hm. reflexivity.
Qed.

Lemma mergeFlags_tags_replace_witness :
  Tags (config (mergeFlags (tagFlags oneTwoTags "three,four" "replace"))) =
  parseTags "three,four".
Proof.
  apply (mergeFlags_tags_replace (tagFlags oneTwoTags "three,four" "replace")).
  - simpl. discriminate.
  - reflexivity.
Defined.

(** Without a tag flag the persisted tags are kept as they are, and without
    a property flag the persisted properties are (a nil map stays nil). *)
Theorem mergeFlags_absent_collections (c : CLI) :
  (tags c = "" -> Tags (config (mergeFlags c)) = Tags (config c))
  /\ (properties c = "" ->
      Properties (config (mergeFlags c)) = Properties (config c)).
Proof.
  unfold mergeFlags. cbn [config set_config]. split; intros H.
  - destruct (mergeProperties_other c (mergeTags c (mergeScalars c)))
      as (Ht & _).
    rewrite Ht. unfold mergeTags, nonEmpty. rewrite H. simpl.
    apply mergeScalars_Tags.
  - unfold mergeProperties, nonEmpty. rewrite H. simpl.
    destruct (mergeTags_other c (mergeScalars c)) as (Hp & _).
    rewrite Hp. apply mergeScalars_Properties.
Qed.

Lemma mergeFlags_absent_collections_witness :
  Tags (config (mergeFlags (noFlags oneTwoTags ""))) = ["one"; "two"]
  /\ Properties (config (mergeFlags (noFlags oneTwoTags ""))) = Some ∅.
Proof.
  destruct (mergeFlags_absent_collections (noFlags oneTwoTags ""))
    as [Ht Hp].
  split; [apply Ht | apply Hp]; reflexivity.
Defined.

(** ** Delivery: more properties *)

Lemma sentMessages_app (a b : list event) :
  sentMessages (a ++ b) = sentMessages a ++ sentMessages b.
Proof. apply omap_app. Qed.

Lemma len_eqb_zero (s : string) : s <> "" -> (strings.len s =? 0) = false.
Proof.
  intros H. destruct s; [congruence|]. reflexivity.
Qed.

Lemma sessionToken_eq (g : Config) :
  (if negb (strings.HasPrefix (Token g) "Bot ")
   then String.app "Bot " (Token g) else Token g) = sessionToken g.
Proof.
  unfold sessionToken. destruct (strings.HasPrefix (Token g) "Bot ");
    reflexivity.
Qed.

Lemma sessionToken_prefix (g : Config) :
  strings.HasPrefix (sessionToken g) "Bot " = true.
Proof.
  unfold sessionToken.
  destruct (strings.HasPrefix (Token g) "Bot ") eqn:E; [exact E|].
  unfold strings.HasPrefix. rewrite !app_String, app_empty. simpl.
  repeat (destruct (ascii_dec _ _); [|congruence]).
  destruct (Token g); reflexivity.
Qed.

(** The sending loop, for any client: it calls [ChannelMessageSend] for the
    messages in order, all to the same target, and stops after the first
    call that fails. *)
Lemma sendParts_prefix (dg : Discord) (g : Config) (threadID : string)
    (n : Z) (messages : list string) :
  forall (i : Z) (tr : list event),
  exists k : nat,
    (k <= length messages)%nat
    /\ sentMessages (sendParts dg g threadID n i messages tr).1 =
       sentMessages tr ++
       map (pair (if nonEmpty threadID then threadID else ChannelID g))
         (take k messages)
    /\ ((sendParts dg g threadID n i messages tr).2 = None ->
        k = length messages)
    /\ (forall e, (sendParts dg g threadID n i messages tr).2 = Some e ->
        (1 <= k)%nat
        /\ exists cause, e = ErrSendingPart (i + Z.of_nat k) n cause)
    /\ exists ext, (sendParts dg g threadID n i messages tr).1 = tr ++ ext.
Proof.
  induction messages as [|msg rest IH]; intros i tr.
  - exists O. simpl. rewrite app_nil_r.
    split; [lia|]. split; [reflexivity|]. split; [reflexivity|].
    split; [intros e0 H0; discriminate|].
    exists []. now rewrite app_nil_r.
  - cbn [sendParts].
    set (tr1 := if Debug g
                then tr ++ [EvLog (LogSendingPart (i + 1) n (strings.len msg))]
                else tr).
    set (target := if nonEmpty threadID then threadID else ChannelID g).
    assert (sentMessages tr1 = sentMessages tr) as Hs1.
    { subst tr1. destruct (Debug g); [|reflexivity].
      rewrite sentMessages_app. simpl. apply app_nil_r. }
    assert (exists ext1, tr1 = tr ++ ext1) as [ext1 He1].
    { subst tr1. destruct (Debug g); [eauto|]. exists [].
      now rewrite app_nil_r. }
    destruct (ChannelMessageSend dg tr1 target msg) as [cause|id].
    + exists 1%nat. cbn [fst snd].
      split; [simpl; lia|].
      split; [rewrite sentMessages_app, Hs1; reflexivity|].
      split; [intros H0; discriminate|].
      split.
      * intros e0 [= <-]. split; [lia|]. exists cause. reflexivity.
      * exists (ext1 ++ [EvChannelMessageSend target msg]).
        rewrite He1, app_assoc. reflexivity.
    + destruct (IH (i + 1) (tr1 ++ [EvChannelMessageSend target msg]))
        as (k & Hk & Hsent & Hnone & Hsome & ext & Hext).
      exists (S k).
      split; [simpl; lia|].
      split; [rewrite Hsent, sentMessages_app, Hs1, <- app_assoc;
              reflexivity|].
      split; [intros H0; rewrite (Hnone H0); reflexivity|].
      split.
      * intros e0 H0. destruct (Hsome e0 H0) as (_ & cause & ->).
        split; [lia|]. exists cause. f_equal. lia.
      * exists (ext1 ++ [EvChannelMessageSend target msg] ++ ext).
        rewrite Hext, He1, <- !app_assoc. reflexivity.
Qed.

(** With a client that takes every message the loop does not fail. *)
Lemma sendParts_accepted (dg : Discord) (g : Config) (threadID : string)
    (n : Z) (messages : list string) :
  (forall tr ch m, exists id, ChannelMessageSend dg tr ch m = inr id) ->
  forall (i : Z) (tr : list event),
    (sendParts dg g threadID n i messages tr).2 = None.
Proof.
  intros Hok. induction messages as [|msg rest IH]; intros i tr;
    [reflexivity|].
  cbn [sendParts].
  match goal with
  | |- context [ChannelMessageSend dg ?t ?ch ?m] =>
      destruct (Hok t ch m) as [id ->]
  end.
  apply IH.
Qed.

(** Opens [sendToDiscord] past its three checks. *)
Ltac past_checks Ht Hc Hs :=
  unfold sendToDiscord; cbv zeta;
  rewrite (proj2 (String.eqb_neq _ _) Ht), (proj2 (String.eqb_neq _ _) Hc),
    (len_eqb_zero _ Hs), !sessionToken_eq.

(** The two credential checks of [sendToDiscord]. *)
Lemma credentials_missing (dg : Discord) (c : CLI) :
  Token (config c) = "" \/ ChannelID (config c) = "" ->
  sendToDiscord dg c =
  ([], Done (Some (if String.eqb (Token (config c)) ""
                   then ErrTokenNotConfigured
                   else ErrChannelNotConfigured))).
Proof.
  intros H. unfold sendToDiscord.
  destruct (String.eqb (Token (config c)) "") eqn:Et; [reflexivity|].
  destruct H as [H|H]; [rewrite H in Et; discriminate|].
  rewrite H. reflexivity.
Qed.

(** Without a token, or without a channel, [sendToDiscord] returns the
    error of the first one that is missing and calls nothing, whatever the
    input is. *)
Theorem sendToDiscord_missing_credentials (dg : Discord) (c : CLI) :
  Token (config c) = "" \/ ChannelID (config c) = "" ->
  sendToDiscord dg c =
  ([], Done (Some (if String.eqb (Token (config c)) ""
                   then ErrTokenNotConfigured
                   else ErrChannelNotConfigured))).
Proof. exact (credentials_missing dg c). Qed.

Lemma sendToDiscord_missing_credentials_witness :
  sendToDiscord acceptingDiscord
    (noFlags (set_Token "secret" defaultConfig) "some input") =
  ([], Done (Some ErrChannelNotConfigured)).
Proof.
  apply (sendToDiscord_missing_credentials acceptingDiscord
           (noFlags (set_Token "secret" defaultConfig) "some input")).
  right. reflexivity.
Defined.

(** With a token, a channel and some input, the first thing
    [sendToDiscord] does is open a session, with a token that begins with
    "Bot ": the configured token when it begins so, and otherwise the
    configured token with "Bot " put in front. *)
Theorem sendToDiscord_bot_token (dg : Discord) (c : CLI) :
  Token (config c) <> "" ->
  ChannelID (config c) <> "" ->
  stdinData c <> "" ->
  exists (tok : string) (rest : list event),
    (sendToDiscord dg c).1 = EvNew tok :: rest
    /\ strings.HasPrefix tok "Bot " = true
    /\ (tok = Token (config c)
        \/ (strings.HasPrefix (Token (config c)) "Bot " = false
            /\ tok = String.app "Bot " (Token (config c)))).
Proof.
  intros Ht Hc Hs.
  exists (sessionToken (config c)).
  assert (exists rest, (sendToDiscord dg c).1 =
                       EvNew (sessionToken (config c)) :: rest) as [rest Hr].
  { past_checks Ht Hc Hs.
    destruct (New dg (sessionToken (config c))); [now exists []|].
    destruct (splitMessage c (stdinData c)) as [chunks| |];
      [|now eexists|now eexists].
    match goal with
    | |- context [let '(_, _) := ?X in _] => destruct X as [tr [e|tid]] eqn:E
    end.
    - assert (exists ext, tr = [EvNew (sessionToken (config c))] ++ ext)
        as [ext ->].
      { destruct (nonEmpty (ThreadName (config c))); [|discriminate].
        unfold startThread in E.
        destruct (Debug (config c));
          repeat match type of E with
          | context [match ?X with _ => _ end] => destruct X
          end; injection E as <- _; simpl; eauto. }
      simpl. eauto.
    - match goal with
      | |- context [sendParts ?a ?b ?c ?d ?e ?f tr] =>
          destruct (sendParts_prefix a b c d f e tr)
            as (_ & _ & _ & _ & _ & ext' & Hext);
          destruct (sendParts a b c d e f tr) as [tr' r]
      end.
      simpl in Hext. subst tr'.
      assert (exists ext, tr = [EvNew (sessionToken (config c))] ++ ext)
        as [ext ->].
      { destruct (nonEmpty (ThreadName (config c))).
        - unfold startThread in E.
          destruct (Debug (config c));
            repeat match type of E with
            | context [match ?X with _ => _ end] => destruct X
            end; try discriminate; injection E as <- _; simpl; eauto.
        - injection E as <- _. destruct (Debug (config c)); simpl; eauto. }
      simpl. eauto. }
  exists rest. split; [exact Hr|]. split; [apply sessionToken_prefix|].
  unfold sessionToken.
  destruct (strings.HasPrefix (Token (config c)) "Bot "); auto.
Qed.

Lemma sendToDiscord_bot_token_witness :
  exists (tok : string) (rest : list event),
    (sendToDiscord acceptingDiscord (noFlags configured "hello")).1 =
      EvNew tok :: rest
    /\ strings.HasPrefix tok "Bot " = true
    /\ (tok = "secret"
        \/ (strings.HasPrefix "secret" "Bot " = false
            /\ tok = String.app "Bot " "secret")).
Proof.
  apply (sendToDiscord_bot_token acceptingDiscord (noFlags configured "hello"));
    simpl; discriminate.
Defined.

(** [sendToDiscord] when [discordgo.New] fails. *)
Lemma session_refused (dg : Discord) (c : CLI) (e : string) :
  Token (config c) <> "" ->
  ChannelID (config c) <> "" ->
  stdinData c <> "" ->
  New dg (sessionToken (config c)) = Some e ->
  sendToDiscord dg c =
  ([EvNew (sessionToken (config c))], Done (Some (ErrCreatingSession e))).
Proof.
  intros Ht Hc Hs Hn. past_checks Ht Hc Hs. rewrite Hn. reflexivity.
Qed.

(** When the session cannot be opened, [sendToDiscord] returns that error
    and has sent nothing. *)
Theorem sendToDiscord_session_failure (dg : Discord) (c : CLI) (e : string) :
  Token (config c) <> "" ->
  ChannelID (config c) <> "" ->
  stdinData c <> "" ->
  New dg (sessionToken (config c)) = Some e ->
  sendToDiscord dg c =
  ([EvNew (sessionToken (config c))], Done (Some (ErrCreatingSession e))).
Proof. exact (session_refused dg c e). Qed.

Lemma sendToDiscord_session_failure_witness :
  sendToDiscord
    (mkDiscord (fun _ => Some "no network") (fun _ _ _ => inr "1")
       (fun _ _ _ _ _ => inr ("2", "thread")))
    (noFlags configured "hello") =
  ([EvNew "Bot secret"], Done (Some (ErrCreatingSession "no network"))).
Proof.
  apply (sendToDiscord_session_failure
           (mkDiscord (fun _ => Some "no network") (fun _ _ _ => inr "1")
              (fun _ _ _ _ _ => inr ("2", "thread")))
           (noFlags configured "hello") "no network");
    solve [simpl; discriminate | reflexivity].
Defined.

(** [sendToDiscord] once the session is open and the content is cut, when
    no thread is asked for. *)
Lemma sendToDiscord_no_thread (dg : Discord) (c : CLI)
    (chunks : list string) :
  Token (config c) <> "" ->
  ChannelID (config c) <> "" ->
  stdinData c <> "" ->
  New dg (sessionToken (config c)) = None ->
  ThreadName (config c) = "" ->
  splitMessage c (stdinData c) = Done chunks ->
  exists pre : list event,
    sentMessages pre = []
    /\ sendToDiscord dg c =
       ((sendParts dg (config c) "" (Z.of_nat (length chunks)) 0 chunks pre).1
          ++ [EvClose],
        Done (sendParts dg (config c) "" (Z.of_nat (length chunks)) 0 chunks
                pre).2).
Proof.
  intros Ht Hc Hs Hn Hth Hrun. past_checks Ht Hc Hs.
  rewrite Hn, Hrun, Hth. cbn [nonEmpty String.eqb negb].
  exists (if Debug (config c)
          then [EvNew (sessionToken (config c))] ++
               [EvLog (LogSplitting (strings.len (stdinData c))
                         (Z.of_nat (length chunks)))]
          else [EvNew (sessionToken (config c))]).
  split; [destruct (Debug (config c)); reflexivity|].
  destruct (sendParts _ _ _ _ _ _ _); reflexivity.
Qed.



(** The delivery without a thread, by a client that accepts every call. *)
Lemma accepted_delivery (dg : Discord) (c : CLI) :
  accepts dg ->
  Token (config c) <> "" ->
  ChannelID (config c) <> "" ->
  stdinData c <> "" ->
  ThreadName (config c) = "" ->
  exists chunks : list string,
    splitMessage c (stdinData c) = Done chunks
    /\ (sendToDiscord dg c).2 = Done None
    /\ sentMessages (sendToDiscord dg c).1 =
       map (pair (ChannelID (config c))) chunks
    /\ last (sendToDiscord dg c).1 = Some EvClose.
Proof.
  intros (Hnew & Hsend & _) Ht Hc Hs Hth.
  destruct (splitMessage_total c (stdinData c)) as (chunks & Hrun & _).
  exists chunks. split; [exact Hrun|].
  destruct (sendToDiscord_no_thread dg c chunks Ht Hc Hs (Hnew _) Hth Hrun)
    as (pre & Hpre & ->).
  destruct (sendParts_prefix dg (config c) "" (Z.of_nat (length chunks))
              chunks 0 pre) as (k & Hk & Hsent & Hnone & _).
  pose proof (sendParts_accepted dg (config c) "" (Z.of_nat (length chunks))
                chunks Hsend 0 pre) as Hok.
  cbn [fst snd]. rewrite Hok. split; [reflexivity|]. split.
  - rewrite sentMessages_app, Hsent, Hpre, (Hnone Hok), firstn_all.
    simpl. apply app_nil_r.
  - apply last_snoc.
Qed.

(** Without a thread and with a client that accepts every call,
    [sendToDiscord] returns no error, has sent every chunk of the content to
    the configured channel, in order, and has closed the session last. *)
Theorem sendToDiscord_delivers (dg : Discord) (c : CLI) :
  accepts dg ->
  Token (config c) <> "" ->
  ChannelID (config c) <> "" ->
  stdinData c <> "" ->
  ThreadName (config c) = "" ->
  exists chunks : list string,
    splitMessage c (stdinData c) = Done chunks
    /\ (sendToDiscord dg c).2 = Done None
    /\ sentMessages (sendToDiscord dg c).1 =
       map (pair (ChannelID (config c))) chunks
    /\ last (sendToDiscord dg c).1 = Some EvClose.
Proof. exact (accepted_delivery dg c). Qed.

Lemma acceptingDiscord_accepts : accepts acceptingDiscord.
Proof. repeat split; intros; eexists; reflexivity. Qed.

Lemma sendToDiscord_delivers_witness :
  exists chunks : list string,
    splitMessage (noFlags (set_MaxMessageSize 5 configured) threeLines)
      threeLines = Done chunks
    /\ (sendToDiscord acceptingDiscord
          (noFlags (set_MaxMessageSize 5 configured) threeLines)).2 = Done None
    /\ sentMessages
         (sendToDiscord acceptingDiscord
            (noFlags (set_MaxMessageSize 5 configured) threeLines)).1 =
       map (pair "1234") chunks
    /\ last (sendToDiscord acceptingDiscord
               (noFlags (set_MaxMessageSize 5 configured) threeLines)).1 =
       Some EvClose.
Proof.
  apply (sendToDiscord_delivers acceptingDiscord
           (noFlags (set_MaxMessageSize 5 configured) threeLines));
    solve [exact acceptingDiscord_accepts | simpl; discriminate | reflexivity].
Defined.

(** The same in serialize mode: what was sent, put together. *)
Lemma accepted_delivery_joined (dg : Discord) (c : CLI) :
  accepts dg ->
  Token (config c) <> "" ->
  ChannelID (config c) <> "" ->
  stdinData c <> "" ->
  ThreadName (config c) = "" ->
  MessageMode (config c) = ModeSerialize ->
  joinChunks (map snd (sentMessages (sendToDiscord dg c).1)) = stdinData c.
Proof.
  intros (Hnew & Hsend & _) Ht Hc Hs Hth Hm.
  destruct (splitMessage_serialize_cuts c (stdinData c) Hm)
    as (chunks & Hrun & _ & Hjoin & _).
  destruct (sendToDiscord_no_thread dg c chunks Ht Hc Hs (Hnew _) Hth Hrun)
    as (pre & Hpre & ->).
  destruct (sendParts_prefix dg (config c) "" (Z.of_nat (length chunks))
              chunks 0 pre) as (k & Hk & Hsent & Hnone & _).
  pose proof (sendParts_accepted dg (config c) "" (Z.of_nat (length chunks))
                chunks Hsend 0 pre) as Hok.
  cbn [fst]. rewrite sentMessages_app, Hsent, Hpre, (Hnone Hok), firstn_all.
  simpl. rewrite app_nil_r, map_map. simpl. rewrite map_id. exact Hjoin.
Qed.

(** In serialize mode, without a thread and with a client that accepts
    every call, the contents of the messages sent, put together in the order
    they were sent, are the input: the whole input is delivered. *)
Theorem sendToDiscord_delivers_all (dg : Discord) (c : CLI) :
  accepts dg ->
  Token (config c) <> "" ->
  ChannelID (config c) <> "" ->
  stdinData c <> "" ->
  ThreadName (config c) = "" ->
  MessageMode (config c) = ModeSerialize ->
  joinChunks (map snd (sentMessages (sendToDiscord dg c).1)) = stdinData c.
Proof. exact (accepted_delivery_joined dg c). Qed.

Lemma sendToDiscord_delivers_all_witness :
  joinChunks
    (map snd
       (sentMessages
          (sendToDiscord acceptingDiscord
             (noFlags (set_MaxMessageSize 5 configured) threeLines)).1)) =
  threeLines.
Proof.
  apply (sendToDiscord_delivers_all acceptingDiscord
           (noFlags (set_MaxMessageSize 5 configured) threeLines));
    solve [exact acceptingDiscord_accepts | simpl; discriminate | reflexivity].
Defined.

(** The thread creation: it sends the thread starter to the channel and
    nothing else, and it answers the thread of the client or one of its two
    errors. *)
Lemma startThread_cases (dg : Discord) (c : CLI) (pre : list event) :
  sentMessages (startThread dg c pre).1 =
    sentMessages pre ++
    [(ChannelID (config c),
      String.app threadStarterPrefix (ThreadName (config c)))]
  /\ match (startThread dg c pre).2 with
     | inl e =>
         exists cause,
           e = ErrSendingThreadStarter cause \/ e = ErrCreatingThread cause
     | inr tid =>
         exists tr msgID nm,
           MessageThreadStart dg tr (ChannelID (config c)) msgID
             (ThreadName (config c)) 60 = inr (tid, nm)
     end.
Proof.
  unfold startThread. cbv zeta.
  destruct (ChannelMessageSend dg pre _ _) as [e|msgID].
  - cbn [fst snd]. split; [now rewrite sentMessages_app|]. eauto.
  - destruct (MessageThreadStart dg _ _ _ _ _) as [e|[tid nm]] eqn:E.
    + cbn [fst snd]. split; [|eauto].
      rewrite !sentMessages_app. simpl. now rewrite app_nil_r.
    + cbn [fst snd]. split; [|eauto].
      destruct (Debug (config c)); rewrite !sentMessages_app; simpl;
        now rewrite ?app_nil_r.
Qed.

(** [sendToDiscord] once the session is open and the content is cut, when a
    thread is asked for. *)
Lemma sendToDiscord_thread (dg : Discord) (c : CLI) (chunks : list string) :
  Token (config c) <> "" ->
  ChannelID (config c) <> "" ->
  stdinData c <> "" ->
  New dg (sessionToken (config c)) = None ->
  ThreadName (config c) <> "" ->
  splitMessage c (stdinData c) = Done chunks ->
  exists pre : list event,
    sentMessages pre = []
    /\ sendToDiscord dg c =
       match (startThread dg c pre).2 with
       | inl e => ((startThread dg c pre).1 ++ [EvClose], Done (Some e))
       | inr tid =>
           ((sendParts dg (config c) tid (Z.of_nat (length chunks)) 0 chunks
               (startThread dg c pre).1).1 ++ [EvClose],
            Done (sendParts dg (config c) tid (Z.of_nat (length chunks)) 0
                    chunks (startThread dg c pre).1).2)
       end.
Proof.
  intros Ht Hc Hs Hn Hth Hrun. past_checks Ht Hc Hs.
  rewrite Hn, Hrun, (nonEmpty_true _ Hth).
  exists (if Debug (config c)
          then [EvNew (sessionToken (config c))] ++
               [EvLog (LogSplitting (strings.len (stdinData c))
                         (Z.of_nat (length chunks)))]
          else [EvNew (sessionToken (config c))]).
  split; [destruct (Debug (config c)); reflexivity|].
  destruct (startThread dg c _) as [tr [e|tid]]; cbn [fst snd];
    [reflexivity|].
  destruct (sendParts _ _ _ _ _ _ _); reflexivity.
Qed.

(** With a thread name and a client that accepts every call and answers the
    thread [tid]: the thread starter goes to the configured channel, then
    every chunk of the content goes to the thread, in order, and none to the
    channel. *)
Theorem sendToDiscord_into_thread (dg : Discord) (c : CLI)
    (tid tnm : string) :
  (forall tok, New dg tok = None) ->
  (forall tr ch m, exists id, ChannelMessageSend dg tr ch m = inr id) ->
  (forall tr ch id nm a, MessageThreadStart dg tr ch id nm a = inr (tid, tnm)) ->
  tid <> "" ->
  Token (config c) <> "" ->
  ChannelID (config c) <> "" ->
  stdinData c <> "" ->
  ThreadName (config c) <> "" ->
  exists chunks : list string,
    splitMessage c (stdinData c) = Done chunks
    /\ (sendToDiscord dg c).2 = Done None
    /\ sentMessages (sendToDiscord dg c).1 =
       (ChannelID (config c),
        String.app threadStarterPrefix (ThreadName (config c)))
       :: map (pair tid) chunks.
Proof.
  intros Hnew Hsend Hstart Htid Ht Hc Hs Hth.
  destruct (splitMessage_total c (stdinData c)) as (chunks & Hrun & _).
  exists chunks. split; [exact Hrun|].
  destruct (sendToDiscord_thread dg c chunks Ht Hc Hs (Hnew _) Hth Hrun)
    as (pre & Hpre & ->).
  destruct (startThread_cases dg c pre) as [Hsent Hres].
  destruct (startThread dg c pre).2 as [e|tid'] eqn:E.
  - exfalso. unfold startThread in E. cbv zeta in E.
    match type of E with
    | context [ChannelMessageSend dg ?t ?ch ?m] =>
        destruct (Hsend t ch m) as [id Hid]; rewrite Hid in E
    end.
    rewrite Hstart in E. discriminate.
  - assert (tid' = tid) as ->.
    { destruct Hres as (tr & msgID & nm & H). rewrite Hstart in H.
      congruence. }
    destruct (sendParts_prefix dg (config c) tid (Z.of_nat (length chunks))
                chunks 0 (startThread dg c pre).1)
      as (k & Hk & Hsp & Hnone & _).
    pose proof (sendParts_accepted dg (config c) tid
                  (Z.of_nat (length chunks)) chunks Hsend 0
                  (startThread dg c pre).1) as Hok.
    cbn [fst snd]. rewrite Hok. split; [reflexivity|].
    rewrite sentMessages_app, Hsp, Hsent, Hpre, (Hnone Hok), firstn_all,
      (nonEmpty_true _ Htid).
    simpl. now rewrite app_nil_r.
Qed.

Lemma sendToDiscord_into_thread_witness :
  exists chunks : list string,
    splitMessage
      (noFlags (set_ThreadName "logs" (set_MaxMessageSize 5 configured))
         threeLines) threeLines = Done chunks
    /\ (sendToDiscord acceptingDiscord
          (noFlags (set_ThreadName "logs" (set_MaxMessageSize 5 configured))
             threeLines)).2 = Done None
    /\ sentMessages
         (sendToDiscord acceptingDiscord
            (noFlags (set_ThreadName "logs" (set_MaxMessageSize 5 configured))
               threeLines)).1 =
       ("1234", String.app threadStarterPrefix "logs") :: map (pair "2") chunks.
Proof.
  apply (sendToDiscord_into_thread acceptingDiscord
           (noFlags (set_ThreadName "logs" (set_MaxMessageSize 5 configured))
              threeLines) "2" "thread");
    solve [intros; reflexivity | intros; eexists; reflexivity
          | simpl; discriminate | discriminate].
Defined.

(** With a thread name, whatever the client answers: when [sendToDiscord]
    returns the error of the thread starter or of the thread creation, the
    only message it has tried to send is the thread starter; none of the
    content was sent. *)
Theorem sendToDiscord_thread_failure (dg : Discord) (c : CLI)
    (cause : string) :
  Token (config c) <> "" ->
  ChannelID (config c) <> "" ->
  stdinData c <> "" ->
  ThreadName (config c) <> "" ->
  (sendToDiscord dg c).2 = Done (Some (ErrSendingThreadStarter cause))
  \/ (sendToDiscord dg c).2 = Done (Some (ErrCreatingThread cause)) ->
  sentMessages (sendToDiscord dg c).1 =
  [(ChannelID (config c),
    String.app threadStarterPrefix (ThreadName (config c)))].
Proof.
  intros Ht Hc Hs Hth Herr.
  destruct (splitMessage_total c (stdinData c)) as (chunks & Hrun & _).
  destruct (New dg (sessionToken (config c))) as [e|] eqn:Hn.
  { rewrite (session_refused dg c e Ht Hc Hs Hn) in Herr.
    destruct Herr as [H|H]; discriminate. }
  destruct (sendToDiscord_thread dg c chunks Ht Hc Hs Hn Hth Hrun)
    as (pre & Hpre & Heq).
  rewrite Heq in Herr |- *.
  destruct (startThread_cases dg c pre) as [Hsent _].
  destruct (startThread dg c pre).2 as [e|tid'].
  - cbn [fst]. rewrite sentMessages_app, Hsent, Hpre. reflexivity.
  - exfalso. cbn [snd] in Herr.
    destruct (sendParts_prefix dg (config c) tid' (Z.of_nat (length chunks))
                chunks 0 (startThread dg c pre).1)
      as (k & _ & _ & _ & Hsome & _).
    destruct (sendParts dg (config c) tid' (Z.of_nat (length chunks)) 0
                chunks (startThread dg c pre).1).2 as [e|].
    + destruct (Hsome e eq_refl) as (_ & cause' & ->).
      destruct Herr as [H|H]; discriminate.
    + destruct Herr as [H|H]; discriminate.
Qed.

Lemma sendToDiscord_thread_failure_witness :
  sentMessages
    (sendToDiscord refusingDiscord
       (noFlags (set_ThreadName "logs" configured) "hello")).1 =
  [("1234", String.app threadStarterPrefix "logs")].
Proof.
  apply (sendToDiscord_thread_failure refusingDiscord
           (noFlags (set_ThreadName "logs" configured) "hello") "refused");
    try (simpl; discriminate).
  left. reflexivity.
Defined.

(** Whatever the client answers afterwards, once the session is open the
    last thing [sendToDiscord] does is close it. *)
Theorem sendToDiscord_closes (dg : Discord) (c : CLI) :
  Token (config c) <> "" ->
  ChannelID (config c) <> "" ->
  stdinData c <> "" ->
  New dg (sessionToken (config c)) = None ->
  last (sendToDiscord dg c).1 = Some EvClose.
Proof.
  intros Ht Hc Hs Hn.
  destruct (splitMessage_total c (stdinData c)) as (chunks & Hrun & _).
  destruct (String.eqb_spec (ThreadName (config c)) "") as [Hth|Hth].
  - destruct (sendToDiscord_no_thread dg c chunks Ht Hc Hs Hn Hth Hrun)
      as (pre & _ & ->).
    apply last_snoc.
  - destruct (sendToDiscord_thread dg c chunks Ht Hc Hs Hn Hth Hrun)
      as (pre & _ & ->).
    destruct (startThread dg c pre).2; apply last_snoc.
Qed.

Lemma sendToDiscord_closes_witness :
  last (sendToDiscord refusingDiscord (noFlags configured "hello")).1 =
  Some EvClose.
Proof.
  apply (sendToDiscord_closes refusingDiscord (noFlags configured "hello"));
    solve [simpl; discriminate | reflexivity].
Defined.

(** The two boolean settings after [mergeFlags]. *)
Lemma mergeFlags_Debug_Passthrough (c : CLI) :
  Debug (config (mergeFlags c)) = Debug (config c) || debug c
  /\ Passthrough (config (mergeFlags c)) =
     Passthrough (config c) || passthrough c.
Proof.
  rewrite (mergeFlags_scalar Debug), (mergeFlags_scalar Passthrough)
    by reflexivity.
  rewrite mergeScalars_Debug, mergeScalars_Passthrough. split; reflexivity.
Qed.

(** ** The whole run *)

Lemma stdoutWrites_app (a b : list effect) :
  stdoutWrites (a ++ b) = stdoutWrites a ++ stdoutWrites b.
Proof. apply omap_app. Qed.

Lemma discordEvents_app (a b : list effect) :
  discordEvents (a ++ b) = discordEvents a ++ discordEvents b.
Proof. apply omap_app. Qed.

Lemma stdoutWrites_ToDiscord (evs : list event) :
  stdoutWrites (map ToDiscord evs) = [].
Proof. induction evs as [|e evs IH]; [reflexivity | exact IH]. Qed.

Lemma discordEvents_ToDiscord (evs : list event) :
  discordEvents (map ToDiscord evs) = evs.
Proof.
  induction evs as [|e evs IH]; [reflexivity|]. simpl. now rewrite IH.
Qed.

(** [sendToDiscord] always returns. *)
Lemma sendToDiscord_returns (dg : Discord) (c : CLI) :
  exists r : option error, (sendToDiscord dg c).2 = Done r.
Proof.
  destruct (String.eqb_spec (Token (config c)) "") as [Ht|Ht].
  { rewrite credentials_missing by now left. simpl. eauto. }
  destruct (String.eqb_spec (ChannelID (config c)) "") as [Hc|Hc].
  { rewrite credentials_missing by now right. simpl. eauto. }
  destruct (String.eqb_spec (stdinData c) "") as [Hs|Hs].
  { unfold sendToDiscord. rewrite Hs.
    destruct (String.eqb (Token (config c)) ""),
             (String.eqb (ChannelID (config c)) ""); simpl; eauto. }
  destruct (New dg (sessionToken (config c))) as [e|] eqn:Hn.
  { rewrite (session_refused dg c e Ht Hc Hs Hn). simpl. eauto. }
  destruct (splitMessage_total c (stdinData c)) as (chunks & Hrun & _).
  destruct (String.eqb_spec (ThreadName (config c)) "") as [Hth|Hth].
  - destruct (sendToDiscord_no_thread dg c chunks Ht Hc Hs Hn Hth Hrun)
      as (pre & _ & ->).
    simpl. eauto.
  - destruct (sendToDiscord_thread dg c chunks Ht Hc Hs Hn Hth Hrun)
      as (pre & _ & ->).
    destruct (startThread dg c pre).2; simpl; eauto.
Qed.

(** The effects of [main] once the configuration is loaded: the settings
    log in debug mode, the echo of the input, the events of the delivery
    and, when the delivery fails, its error. *)
Lemma main_Loaded (dg : Discord) (c : CLI) :
  exists r : option error,
    (sendToDiscord dg (mergeFlags c)).2 = Done r
    /\ main dg (Loaded c) =
       ((if Debug (config (mergeFlags c))
         then [LogSettings (config (mergeFlags c))] else [])
        ++ (if Passthrough (config (mergeFlags c))
               && (0 <? strings.len (stdinData c))
            then [Stdout (stdinData c)] else [])
        ++ map ToDiscord (sendToDiscord dg (mergeFlags c)).1
        ++ match r with
           | Some e => [Stderr (SendingToDiscord e)]
           | None => []
           end,
        Done (match r with
              | Some _ => 1
              | None => 0
              end)).
Proof.
  destruct (sendToDiscord_returns dg (mergeFlags c)) as [r Hr].
  exists r. split; [exact Hr|].
  unfold main. cbv zeta.
  destruct (sendToDiscord dg (mergeFlags c)) as [evs r'].
  cbn [fst snd] in *. subst r'.
  change (stdinData (mergeFlags c)) with (stdinData c).
  destruct (Debug (config (mergeFlags c))),
           (Passthrough (config (mergeFlags c))
            && (0 <? strings.len (stdinData c))), r;
    cbn [app]; rewrite <- ?app_assoc, ?app_nil_r; reflexivity.
Qed.

(** What [main] writes to standard output: the input, in one write, when
    passthrough is on in the persisted settings or by the flag and the
    input is not empty; nothing otherwise.  This holds whatever the client
    answers, so also when the delivery fails. *)
Theorem main_stdout (dg : Discord) (s : startup) :
  stdoutWrites (main dg s).1 =
  match s with
  | Loaded c =>
      if (Passthrough (config c) || passthrough c) && nonEmpty (stdinData c)
      then [stdinData c] else []
  | _ => []
  end.
Proof.
  destruct s as [e|e|e|c]; try reflexivity.
  destruct (main_Loaded dg c) as (r & _ & ->). cbn [fst].
  rewrite !stdoutWrites_app, stdoutWrites_ToDiscord.
  destruct (mergeFlags_Debug_Passthrough c) as [_ ->].
  assert ((0 <? strings.len (stdinData c)) = nonEmpty (stdinData c)) as ->
    by (destruct (stdinData c); reflexivity).
  destruct (Debug (config (mergeFlags c))),
           ((Passthrough (config c) || passthrough c)
            && nonEmpty (stdinData c)), r; reflexivity.
Qed.

(** When the input is echoed, it is echoed before anything is done with
    Discord: every event of the delivery comes after the write. *)
Theorem main_echo_before_delivery (dg : Discord) (c : CLI) :
  Passthrough (config c) || passthrough c = true ->
  stdinData c <> "" ->
  exists pre post : list effect,
    (main dg (Loaded c)).1 = pre ++ Stdout (stdinData c) :: post
    /\ discordEvents pre = []
    /\ discordEvents post = (sendToDiscord dg (mergeFlags c)).1.
Proof.
  intros Hp Hs.
  destruct (main_Loaded dg c) as (r & _ & ->). cbn [fst].
  destruct (mergeFlags_Debug_Passthrough c) as [_ ->]. rewrite Hp.
  assert ((0 <? strings.len (stdinData c)) = true) as ->
    by (destruct (stdinData c); [congruence | reflexivity]).
  cbn [andb].
  exists (if Debug (config (mergeFlags c))
          then [LogSettings (config (mergeFlags c))] else []).
  eexists. split; [reflexivity|]. split.
  - destruct (Debug (config (mergeFlags c))); reflexivity.
  - rewrite discordEvents_app, discordEvents_ToDiscord.
    destruct r; simpl; apply app_nil_r.
Qed.

Lemma main_echo_before_delivery_witness :
  exists pre post : list effect,
    (main acceptingDiscord
       (Loaded (noFlags (set_Passthrough true configured) "hello"))).1 =
      pre ++ Stdout "hello" :: post
    /\ discordEvents pre = []
    /\ discordEvents post =
       (sendToDiscord acceptingDiscord
          (mergeFlags (noFlags (set_Passthrough true configured) "hello"))).1.
Proof.
  apply (main_echo_before_delivery acceptingDiscord
           (noFlags (set_Passthrough true configured) "hello")).
  - reflexivity.
  - simpl. discriminate.
Defined.


(** A run without any flag delivers the whole input, whatever message mode
    is persisted, "truncate" included: with a token, a channel, no thread
    name and a client that accepts every call, the contents of the messages
    sent, put together in order, are the input, and the status is 0. *)
Theorem main_no_flags_delivers_all (dg : Discord) (g : Config)
    (stdin : string) :
  accepts dg ->
  Token g <> "" ->
  ChannelID g <> "" ->
  ThreadName g = "" ->
  stdin <> "" ->
  joinChunks
    (map snd
       (sentMessages
          (discordEvents (main dg (Loaded (noFlags g stdin))).1))) = stdin
  /\ (main dg (Loaded (noFlags g stdin))).2 = Done 0.
Proof.
  intros Hacc Ht Hc Hth Hs.
  pose proof (noFlags_config g stdin) as Hg.
  assert (Token (config (mergeFlags (noFlags g stdin))) <> "") as Ht'
    by (rewrite Hg; exact Ht).
  assert (ChannelID (config (mergeFlags (noFlags g stdin))) <> "") as Hc'
    by (rewrite Hg; exact Hc).
  assert (ThreadName (config (mergeFlags (noFlags g stdin))) = "") as Hth'
    by (rewrite Hg; exact Hth).
  assert (MessageMode (config (mergeFlags (noFlags g stdin))) = ModeSerialize)
    as Hm' by (rewrite Hg; reflexivity).
  assert (stdinData (mergeFlags (noFlags g stdin)) = stdin) as Hin
    by reflexivity.
  pose proof (accepted_delivery_joined dg (mergeFlags (noFlags g stdin))
                Hacc Ht' Hc' ltac:(rewrite Hin; exact Hs) Hth' Hm') as Hall.
  destruct (accepted_delivery dg (mergeFlags (noFlags g stdin))
              Hacc Ht' Hc' ltac:(rewrite Hin; exact Hs) Hth')
    as (chunks & _ & Hok & _).
  destruct (main_Loaded dg (noFlags g stdin)) as (r & Hr & ->).
  rewrite Hok in Hr. injection Hr as <-. cbn [fst snd].
  split; [|reflexivity].
  rewrite !discordEvents_app, discordEvents_ToDiscord.
  replace (discordEvents
             (if Debug (config (mergeFlags (noFlags g stdin)))
              then [LogSettings (config (mergeFlags (noFlags g stdin)))]
              else [])) with (@nil event)
    by (destruct (Debug (config (mergeFlags (noFlags g stdin))));
        reflexivity).
  replace (discordEvents
             (if Passthrough (config (mergeFlags (noFlags g stdin)))
                 && (0 <? strings.len (stdinData (noFlags g stdin)))
              then [Stdout (stdinData (noFlags g stdin))] else []))
    with (@nil event)
    by (destruct (Passthrough (config (mergeFlags (noFlags g stdin)))
                  && (0 <? strings.len (stdinData (noFlags g stdin))));
        reflexivity).
  simpl. rewrite app_nil_r. rewrite Hin in Hall. exact Hall.
Qed.

Lemma main_no_flags_delivers_all_witness :
  joinChunks
    (map snd
       (sentMessages
          (discordEvents
             (main acceptingDiscord
                (Loaded (noFlags
                   (set_MessageMode ModeTruncate
                      (set_MaxMessageSize 5 configured)) threeLines))).1))) =
  threeLines
  /\ (main acceptingDiscord
        (Loaded (noFlags
           (set_MessageMode ModeTruncate (set_MaxMessageSize 5 configured))
           threeLines))).2 = Done 0.
Proof.
  apply (main_no_flags_delivers_all acceptingDiscord
           (set_MessageMode ModeTruncate (set_MaxMessageSize 5 configured))
           threeLines);
    solve [exact acceptingDiscord_accepts | simpl; discriminate | reflexivity].
Defined.

(** ** The logging example *)

Lemma app_comma (s t : string) :
  String.app (String.app s ",") t = String.app s (String ","%char t).
Proof.
  induction s as [|a s IH]; [reflexivity|]. rewrite !app_String. now f_equal.
Qed.

(** The tags of two tag strings joined by a comma. *)
Lemma parseTags_app_comma (s t : string) :
  s <> "" ->
  parseTags (String.app (String.app s ",") t) =
  parseTags s ++ map strings.TrimSpace (strings.Split t ","%char).
Proof.
  intros Hs. unfold parseTags.
  rewrite app_comma, app_sep_nonempty, Split_app, map_app.
  apply String.eqb_neq in Hs. now rewrite Hs.
Qed.

(** The tag string that [Write] passes to [disgo] is parsed by [parseTags]
    into the base tags of the writer followed by the tags of its level:
    "error" and "critical" for ERROR and FATAL, "warning" for WARN and
    WARNING, none for any other level. *)
Theorem writeTags_parsed (w : logging.DisgoWriter) :
  parseTags (logging.writeTags w) =
  parseTags (logging.Tags w) ++ logging.levelTags (logging.Level w).
Proof.
  unfold logging.writeTags, logging.levelTags. cbv zeta.
  destruct (String.eqb (logging.Level w) "ERROR"
            || String.eqb (logging.Level w) "FATAL").
  - destruct (String.eqb_spec (logging.Tags w) "") as [->|Hne].
    + reflexivity.
    + rewrite (nonEmpty_true _ Hne). now rewrite parseTags_app_comma.
  - destruct (String.eqb (logging.Level w) "WARN"
              || String.eqb (logging.Level w) "WARNING").
    + destruct (String.eqb_spec (logging.Tags w) "") as [->|Hne].
      * reflexivity.
      * rewrite (nonEmpty_true _ Hne). now rewrite parseTags_app_comma.
    + now rewrite app_nil_r.
Qed.

